(** * Pytorch-NCE: the training-loop orchestrator of [main.py]

    A shallow embedding of [train], [evaluate], [run_epoch] and [main]
    of [src/main.py], followed by the properties the specification
    states about them.

    Numbers are modelled as the program has them: tensor elements are
    IEEE binary32 values ([torch.FloatTensor]), Python [float]s are IEEE
    binary64 values, both through the executable [SpecFloat] operations
    of the Standard Library (round to nearest, ties to even); Python
    [int]s are [Z].  The recurrent network, the NCE loss, the optimizer
    for the dense parameters and the collective transport are outside
    [main.py]; they enter as the fields of the class [Collaborators].

    The model is of one worker process.  The other worker enters at the
    one point where the program synchronizes, the all-reduce of the
    dense parameters; what it may write to the embedding table through
    [share_memory()] while this worker runs is not modelled. *)

From Stdlib Require Import ZArith Bool String SpecFloat Lia.
From stdpp Require Import base option list sorting strings gmap pretty.

(* ================================================================== *)
(** ** Python exceptions and results *)

Inductive exn : Type :=
  | KeyboardInterrupt
  | ZeroDivisionError
  | OverflowError
  | IndexError
  | TypeError
  | FileNotFoundError
  | RuntimeError.

(** The result of evaluating a Python expression: a value or a raised
    exception. *)
Inductive outcome (A : Type) : Type :=
  | Ret (a : A)
  | Raise (e : exn).
Arguments Ret {A} a.
Arguments Raise {A} e.

Definition obind {A B} (c : outcome A) (k : A → outcome B) : outcome B :=
  match c with
  | Ret a => k a
  | Raise e => Raise e
  end.

#[global] Instance outcome_ret : MRet outcome := @Ret.
#[global] Instance outcome_bind : MBind outcome := λ A B k c, obind c k.

(* ================================================================== *)
(** ** Floating-point numbers *)

(** binary32: the element type of every tensor of the program. *)
Module F32.
Definition prec : Z := 24.
Definition emax : Z := 128.
Definition t : Type := spec_float.
Definition add : t → t → t := SFadd prec emax.
Definition sub : t → t → t := SFsub prec emax.
Definition mul : t → t → t := SFmul prec emax.
Definition div : t → t → t := SFdiv prec emax.
Definition opp : t → t := SFopp.
(** Conversion of a Python [int]. *)
Definition of_int (z : Z) : t := binary_normalize prec emax z 0 false.
(** Conversion of a wider float (a Python scalar that meets a tensor
    is first brought to the tensor's element type). *)
Definition round (x : spec_float) : t :=
  match x with
  | S754_finite s m e => binary_round prec emax s m e
  | _ => x
  end.
End F32.

(** binary64: Python's [float]. *)
Module F64.
Definition prec : Z := 53.
Definition emax : Z := 1024.
Definition t : Type := spec_float.
Definition zero : t := S754_zero false.
Definition add : t → t → t := SFadd prec emax.
Definition opp : t → t := SFopp.
Definition ltb : t → t → bool := SFltb.
Definition eqb : t → t → bool := SFeqb.
(** [float(z)]: nearest binary64 value; Python raises [OverflowError]
    when the integer is too large. *)
Definition of_int (z : Z) : outcome t :=
  match binary_normalize prec emax z 0 false with
  | S754_infinity _ => Raise OverflowError
  | x => Ret x
  end.
(** [x / y] on Python floats: a zero divisor raises. *)
Definition div (x y : t) : outcome t :=
  if eqb y zero then Raise ZeroDivisionError else Ret (SFdiv prec emax x y).
(** [x / n] with [n] a Python [int]. *)
Definition div_int (x : t) (n : Z) : outcome t :=
  if (n =? 0)%Z then Raise ZeroDivisionError
  else y ← of_int n; Ret (SFdiv prec emax x y).
(** [float(x)] for the one element [x] of a float32 tensor: the same
    number as a binary64 value. *)
Definition of_tensor (x : spec_float) : t :=
  match x with
  | S754_finite s m e => binary_round prec emax s m e
  | _ => x
  end.
(** The value of the decimal literal [n/d] (for instance [1/100] for
    [0.01]): the binary64 value nearest to the quotient. *)
Definition lit (n d : Z) : t :=
  SFdiv prec emax (binary_normalize prec emax n 0 false)
                  (binary_normalize prec emax d 0 false).
(** [bool(x)]: a float is falsy exactly when it compares equal to 0. *)
Definition truthy (x : t) : bool := negb (eqb x zero).
End F64.

(* ================================================================== *)
(** ** Tensors *)

(** A row of the embedding table, or a flattened dense parameter. *)
Abbreviation Row := (list F32.t).
Abbreviation Tensor := (list F32.t).
(** [model.encoder.weight.data]: one row per vocabulary id. *)
Abbreviation Table := (list (list F32.t)).
(** An uncoalesced sparse gradient of the embedding table
    ([model.encoder.weight.grad]): entries (row index, row of values),
    in the order the backward pass produced them; an index may occur
    more than once.  All rows have the embedding dimension. *)
Abbreviation SparseGrad := (list (nat * list F32.t)).

(** Element-wise [a + b] of two tensors of one shape. *)
Definition tensor_add (a b : Tensor) : Tensor := zip_with F32.add a b.
(** Element-wise [a - b]. *)
Definition tensor_sub (a b : Tensor) : Tensor := zip_with F32.sub a b.
(** [c * a] for a Python scalar [c] already in the tensor's type. *)
Definition tensor_scale (c : F32.t) (a : Tensor) : Tensor :=
  (λ x, F32.mul x c) <$> a.
(** [a / c]. *)
Definition tensor_div (a : Tensor) (c : F32.t) : Tensor :=
  (λ x, F32.div x c) <$> a.

(** One entry entering a coalesced gradient: the list stays sorted by
    index, and an index already present gets the new row added to what
    it has accumulated. *)
Fixpoint accumulate (i : nat) (v : Row) (acc : SparseGrad) : SparseGrad :=
  match acc with
  | [] => [(i, v)]
  | (j, w) :: rest =>
      if i <? j then (i, v) :: acc
      else if i =? j then (j, tensor_add w v) :: rest
      else (j, w) :: accumulate i v rest
  end.

(** The second half of [t.coalesce()]: the entries, taken in the order
    given, gathered by index, the rows of a repeated index added up in
    that order. *)
Definition sum_duplicates (g : SparseGrad) : SparseGrad :=
  fold_left (λ acc e, accumulate e.1 e.2 acc) g [].

(** The first half of [t.coalesce()]: torch sorts the entries by index.
    Its sort is not stable, so the order in which the entries of one
    index come out is the library's; all that is used of it here is
    that it returns the entries it was given, each once. *)
Class IndexSort : Type := {
  sort_entries : SparseGrad → SparseGrad;
  sort_entries_perm : ∀ g, sort_entries g ≡ₚ g;
}.

(** [t.coalesce()]: indices sorted and unique, the rows of a repeated
    index summed in the order the sort left them in. *)
Definition coalesce `{IndexSort} (g : SparseGrad) : SparseGrad :=
  sum_duplicates (sort_entries g).

(** [t[indices]]: the selected rows; an index outside the table raises. *)
Fixpoint index_select (W : Table) (indices : list nat) : outcome (list Row) :=
  match indices with
  | [] => Ret []
  | i :: rest =>
      match W !! i with
      | Some r => rs ← index_select W rest; Ret (r :: rs)
      | None => Raise IndexError
      end
  end.

(** [t.index_add_(0, indices, src)]: [t[indices[j]] += src[j]] for each
    [j], in place. *)
Fixpoint index_add_ (W : Table) (indices : list nat) (src : list Row)
  : outcome Table :=
  match indices, src with
  | [], [] => Ret W
  | i :: indices', s :: src' =>
      match W !! i with
      | Some r => index_add_ (<[i := tensor_add r s]> W) indices' src'
      | None => Raise IndexError
      end
  | _, _ => Raise RuntimeError
  end.

(** [values.add_(w_d)] (line 129) on the rows of a coalesced gradient;
    on a gradient without entries the call raises. *)
Definition values_add_ (values w_d : list Row) : outcome (list Row) :=
  match values with
  | [] => Raise RuntimeError
  | _ :: _ => Ret (zip_with tensor_add values w_d)
  end.

(** Lines 126-131 of [train]: the sparse update of the embedding table
    with weight decay on the rows the gradient touches.
<<
    emb_grad = model.encoder.weight.grad.coalesce()
    indices = emb_grad._indices().view(-1)
    w_d = weight_decay * model.encoder.weight.data[indices]
    emb_grad._values().add_(w_d)
    model.encoder.weight.data.index_add_(0, indices, -lr * emb_grad._values())
>> *)
Definition sparse_update `{IndexSort} (W : Table) (grad : SparseGrad)
    (lr weight_decay : F64.t) : outcome Table :=
  let emb_grad := coalesce grad in
  let indices := emb_grad.*1 in
  rows ← index_select W indices;
  let w_d := tensor_scale (F32.round weight_decay) <$> rows in
  values ← values_add_ (emb_grad.*2) w_d;
  index_add_ W indices (tensor_scale (F32.round (F64.opp lr)) <$> values).

(** Lines 139-141 of [train], as one worker runs them: every dense
    parameter is sum-reduced over the group and divided by the group's
    size.  [all_reduce k t] is what [dist.all_reduce] leaves in the
    [k]-th parameter when this worker contributes [t].
<<
    for param in dense_params:
        dist.all_reduce(param.data, op=dist.reduce_op.SUM)
        param.data /= dist.get_world_size()
>> *)
Definition sync_dense (all_reduce : nat → Tensor → Tensor) (world_size : Z)
    (dense_params : list Tensor) : list Tensor :=
  imap (λ k param, tensor_div (all_reduce k param) (F32.of_int world_size))
       dense_params.

(** The collective seen from outside: [group] holds the dense parameters
    of every worker, by rank.  A sum all-reduce hands every rank the same
    tensor, the contributions added in rank order. *)
Definition reduce_sum (contributions : list Tensor) (local : Tensor) : Tensor :=
  match contributions with
  | [] => local
  | t :: ts => foldl tensor_add t ts
  end.

Definition contributions (group : list (list Tensor)) (k : nat) : list Tensor :=
  omap (λ dense, dense !! k) group.

Definition group_all_reduce (group : list (list Tensor)) (k : nat)
    (local : Tensor) : Tensor :=
  reduce_sum (contributions group k) local.

(** All workers of the group run lines 139-141 at the same step;
    [world_size] is what [dist.get_world_size()] returns to each. *)
Definition group_sync (world_size : Z) (group : list (list Tensor))
  : list (list Tensor) :=
  sync_dense (group_all_reduce group) world_size <$> group.

(* ================================================================== *)
(** ** The model object, the command line and the process state *)

Record Model : Type := {
  training : bool;               (* nn.Module.training *)
  criterion_nce : bool;          (* model.criterion.nce *)
  encoder_weight : Table;        (* model.encoder.weight.data *)
  dense_params : list Tensor;    (* [criterion.bias] + rnn parameters *)
}.

Definition set_training (b : bool) (m : Model) : Model :=
  {| training := b; criterion_nce := criterion_nce m;
     encoder_weight := encoder_weight m; dense_params := dense_params m |}.
Definition set_criterion_nce (b : bool) (m : Model) : Model :=
  {| training := training m; criterion_nce := b;
     encoder_weight := encoder_weight m; dense_params := dense_params m |}.
Definition set_encoder_weight (W : Table) (m : Model) : Model :=
  {| training := training m; criterion_nce := criterion_nce m;
     encoder_weight := W; dense_params := dense_params m |}.
Definition set_dense_params (d : list Tensor) (m : Model) : Model :=
  {| training := training m; criterion_nce := criterion_nce m;
     encoder_weight := encoder_weight m; dense_params := d |}.

(** The fields of [args] that [main.py] reads. *)
Module args.
Record t : Type := {
  nce : bool;
  prof : bool;
  cuda : bool;
  train : bool;
  clip : F64.t;
  log_interval : Z;
  lr : F64.t;
  lr_decay : F64.t;
  weight_decay : F64.t;
  epochs : Z;
  save : string;
}.
End args.

Inductive Level : Type := DEBUG | INFO | WARNING | ERROR.

(** The records [main.py] hands to the logger, with the values it
    formats into them. *)
Inductive Message : Type :=
  | train_progress (epoch num_batch : Z) (lr cur_loss ppl : F64.t)
  | end_of_epoch (epoch : Z) (val_ppl : F64.t)
  | exiting_early
  | end_of_training (test_ppl : F64.t).

Record World : Type := {
  model : Model;                      (* the object bound to [model] *)
  files : gmap string Model;          (* what [torch.save] has written *)
  log : list (Level * Message);       (* logger output, oldest first *)
}.

(** Statements: they read and change the process state, and return a
    value or raise. *)
Definition M (A : Type) : Type := World → outcome A * World.

Definition ret {A} (a : A) : M A := λ w, (Ret a, w).
Definition bind {A B} (c : M A) (k : A → M B) : M B :=
  λ w, match c w with
       | (Ret a, w') => k a w'
       | (Raise e, w') => (Raise e, w')
       end.
#[global] Instance M_ret : MRet M := @ret.
#[global] Instance M_bind : MBind M := λ A B k c, bind c k.

Definition raise {A} (e : exn) : M A := λ w, (Raise e, w).
Definition lift {A} (c : outcome A) : M A := λ w, (c, w).
Definition get_model : M Model := λ w, (Ret (model w), w).
Definition modify_model (f : Model → Model) : M unit :=
  λ w, (Ret tt, {| model := f (model w); files := files w; log := log w |}).
Definition logger (l : Level) (msg : Message) : M unit :=
  λ w, (Ret tt, {| model := model w; files := files w;
                  log := log w ++ [(l, msg)] |}).
(** [with open(path, 'wb') as f: torch.save(model, f)] *)
Definition torch_save (path : string) : M unit :=
  λ w, (Ret tt, {| model := model w; files := <[path := model w]> (files w);
                  log := log w |}).
(** [with open(path, 'rb') as f: model = torch.load(f)] *)
Definition torch_load (path : string) : M unit :=
  λ w, match files w !! path with
       | Some m => (Ret tt, {| model := m; files := files w; log := log w |})
       | None => (Raise FileNotFoundError, w)
       end.
(** [try: body except KeyboardInterrupt: handler] *)
Definition try_except_KeyboardInterrupt (body handler : M unit) : M unit :=
  λ w, match body w with
       | (Raise KeyboardInterrupt, w') => handler w'
       | r => r
       end.

(** The state a [for] loop carries, and whether the body left it by
    [break]. *)
Inductive ctl (S : Type) : Type :=
  | Continue (s : S)
  | Break (s : S).
Arguments Continue {S} s.
Arguments Break {S} s.

(** [for n, x in enumerate(xs): body], counting from [n]. *)
Fixpoint for_enumerate {S B} (body : Z → B → S → M (ctl S)) (n : Z)
    (xs : list B) (s : S) : M S :=
  match xs with
  | [] => ret s
  | x :: xs' =>
      c ← body n x s;
      match c with
      | Continue s' => for_enumerate body (n + 1)%Z xs' s'
      | Break s' => ret s'
      end
  end.

(** [for x in xs: body] *)
Fixpoint for_each {S B} (body : B → S → M S) (xs : list B) (s : S) : M S :=
  match xs with
  | [] => ret s
  | x :: xs' => s' ← body x s; for_each body xs' s'
  end.

(** [a % b] on Python ints. *)
Definition py_mod (a b : Z) : outcome Z :=
  if (b =? 0)%Z then Raise ZeroDivisionError else Ret (a mod b)%Z.

(** [range(lo, hi)] *)
Definition range (lo hi : Z) : list Z :=
  (λ k, lo + Z.of_nat k)%Z <$> seq 0 (Z.to_nat (hi - lo)).

(** [main] creates the process group with this size, so it is also
    what [dist.get_world_size()] returns. *)
Definition WORLD_SIZE : Z := 2.

(** What [main.py] imports and calls but does not define. *)
Class Collaborators : Type := {
  (** one element of a data stream, as [process_data] unpacks it *)
  Batch : Type;
  (** [int(length.data.sum())]: the tokens of a batch *)
  batch_length : Batch → Z;
  (** [model(data, length[, lr])]: the loss, the one float32 element
      that [loss.data[0]] reads *)
  forward : Model → Batch → option F64.t → outcome F32.t;
  (** [loss.backward()]: the gradient of the embedding table, entry by
      entry, and the gradients of the dense parameters *)
  backward : Model → Batch → outcome (SparseGrad * list Tensor);
  (** the sort inside [coalesce()] *)
  index_sort :: IndexSort;
  (** [torch.nn.utils.clip_grad_norm(dense_params, clip)] *)
  clip_grad_norm : list Tensor → F64.t → list Tensor;
  (** [optim.SGD(..., lr, momentum, weight_decay)] over the dense
      parameters, for arguments it accepts, and its [step] *)
  Optimizer : Type;
  SGD : F64.t → F64.t → F64.t → Optimizer;
  optimizer_step : Optimizer → list Tensor → list Tensor → Optimizer * list Tensor;
  (** [dist.all_reduce(param.data, SUM)] at batch [num_batch] of an
      epoch, for the [k]-th dense parameter *)
  all_reduce : Z → Z → nat → Tensor → Tensor;
  (** [math.exp] *)
  math_exp : F64.t → outcome F64.t;
  (** the three data streams; the training stream is reshuffled for
      every pass *)
  corpus_train : Z → list Batch;
  corpus_valid : list Batch;
  corpus_test : list Batch;
}.

(* ================================================================== *)
(** ** The program *)

Section Program.
Context `{Collaborators}.
(** The parsed command line, a global of [main.py]. *)
Variable a : args.t.

(** The body of the loop of [train] (lines 113-152).  The loop carries
    the optimizer and [total_loss].  [loss.data[0]] is a tensor of one
    float32 element, so [total_loss] is one from line 134 on, and the
    sum of line 134 and the quotient of line 142 are binary32
    operations; the [int] 0 that [total_loss] starts from and is reset
    to is carried as the zero it becomes in that sum.  [math.exp] and
    the log record take the quotient as a Python float.  Gradients are
    values of the backward pass here, so zeroing them at the top of the
    body (lines 113-115) has nothing to do. *)
Definition train_batch (epoch : Z) (lr weight_decay : F64.t)
    (num_batch : Z) (data_batch : Batch) (s : Optimizer * F32.t)
  : M (ctl (Optimizer * F32.t)) :=
  let '(optimizer, total_loss) := s in
  m ← get_model;
  loss ← lift (forward m data_batch (Some lr));
  '(emb_grad, dense_grad) ← lift (backward m data_batch);
  let dense_grad := clip_grad_norm dense_grad (args.clip a) in
  let '(optimizer, dense) := optimizer_step optimizer (dense_params m) dense_grad in
  modify_model (set_dense_params dense);;
  m ← get_model;
  W ← lift (sparse_update (encoder_weight m) emb_grad lr weight_decay);
  modify_model (set_encoder_weight W);;
  let total_loss := F32.add total_loss loss in
  if args.prof a then ret (Break (optimizer, total_loss))
  else
    r ← lift (py_mod num_batch (args.log_interval a));
    if (r =? 0)%Z && (0 <? num_batch)%Z then
      modify_model (λ m, set_dense_params
        (sync_dense (all_reduce epoch num_batch) WORLD_SIZE (dense_params m)) m);;
      let cur_loss := F32.div total_loss (F32.of_int (args.log_interval a)) in
      ppl ← lift (math_exp (F64.of_tensor cur_loss));
      logger DEBUG (train_progress epoch num_batch lr (F64.of_tensor cur_loss) ppl);;
      ret (Continue (optimizer, F64.zero))
    else ret (Continue (optimizer, total_loss)).

(** [train(model, data_source, epoch, lr, weight_decay, momentum)],
    from the point where its optimizer is built: [SGD] returns. *)
Definition train (data_source : list Batch) (epoch : Z)
    (lr weight_decay momentum : F64.t) : M unit :=
  let optimizer := SGD lr momentum weight_decay in
  modify_model (set_training true);;
  modify_model (set_criterion_nce (args.nce a));;
  for_enumerate (train_batch epoch lr weight_decay) 0 data_source
                (optimizer, F64.zero);;
  ret tt.

(** The body of the loop of [evaluate] (lines 164-169); the loop
    carries [eval_loss] and [total_length].  As in [train_batch], the
    product and the sum of line 168 are binary32 operations on the
    element of the loss tensor. *)
Definition evaluate_batch (data_batch : Batch) (s : F32.t * Z) : M (F32.t * Z) :=
  let '(eval_loss, total_length) := s in
  m ← get_model;
  loss ← lift (forward m data_batch None);
  let cur_length := batch_length data_batch in
  ret (F32.add eval_loss (F32.mul loss (F32.of_int cur_length)),
       (total_length + cur_length)%Z).

(** [evaluate(model, data_source)].  With no batch [eval_loss] is
    still the int 0 at line 173 and Python divides it by the int 0,
    which raises [ZeroDivisionError]; after a batch it is a tensor, and
    dividing a tensor by an int does not raise: with a [total_length]
    of zero the quotient is an infinity or a NaN. *)
Definition evaluate (data_source : list Batch) : M F64.t :=
  modify_model (set_training false);;
  modify_model (set_criterion_nce false);;
  '(eval_loss, total_length) ← for_each evaluate_batch data_source (F64.zero, 0%Z);
  modify_model (set_criterion_nce true);;
  q ← lift (match data_source with
            | [] => Raise ZeroDivisionError
            | _ :: _ => Ret (F32.div eval_loss (F32.of_int total_length))
            end);
  lift (math_exp (F64.of_tensor q)).

(** [not best_val_ppl or val_ppl < best_val_ppl] (line 193); [None]
    and a float equal to zero are falsy. *)
Definition improves (best_val_ppl : option F64.t) (val_ppl : F64.t) : bool :=
  match best_val_ppl with
  | None => true
  | Some best => negb (F64.truthy best) || F64.ltb val_ppl best
  end.

(** [args.save + '.epoch_{}'.format(epoch)] *)
Definition epoch_path (epoch : Z) : string :=
  args.save a +:+ ".epoch_" +:+ pretty epoch.

(** Lines 190-201 of [run_epoch]: the epoch's checkpoint, then the
    choice between the best checkpoint and annealing. *)
Definition select_checkpoint (epoch : Z) (lr : F64.t)
    (best_val_ppl : option F64.t) (val_ppl : F64.t)
  : M (F64.t * option F64.t) :=
  torch_save (epoch_path epoch);;
  if improves best_val_ppl val_ppl then
    torch_save (args.save a);;
    ret (lr, Some val_ppl)
  else
    lr' ← lift (F64.div lr (args.lr_decay a));
    ret (lr', best_val_ppl).

(** [run_epoch(model, epoch, lr, best_val_ppl)]: [None] when
    profiling, else the new [lr] and [best_val_ppl] (the model it also
    returns is the object it was given). *)
Definition run_epoch (epoch : Z) (lr : F64.t) (best_val_ppl : option F64.t)
  : M (option (F64.t * option F64.t)) :=
  train (corpus_train epoch) epoch lr (args.weight_decay a) (F64.lit 9 10);;
  if args.prof a then ret None
  else
    val_ppl ← evaluate corpus_valid;
    logger WARNING (end_of_epoch epoch val_ppl);;
    r ← select_checkpoint epoch lr best_val_ppl val_ppl;
    ret (Some r).

(** The loop of [main] (lines 218-221); unpacking the [None] of a
    profiling epoch raises [TypeError]. *)
Fixpoint epochs_loop (epochs : list Z) (lr : F64.t)
    (best_val_ppl : option F64.t) : M unit :=
  match epochs with
  | [] => ret tt
  | epoch :: rest =>
      r ← run_epoch epoch lr best_val_ppl;
      match r with
      | None => raise TypeError
      | Some (lr, best_val_ppl) =>
          if args.prof a then ret tt else epochs_loop rest lr best_val_ppl
      end
  end.

(** Lines 230-234 of [main]: the run on the test data. *)
Definition final_evaluation : M unit :=
  if negb (args.prof a) then
    test_ppl ← evaluate corpus_test;
    logger WARNING (end_of_training test_ppl)
  else ret tt.

(** [main(model)].  Joining the process group and moving tensors to
    the device change nothing that is modelled here. *)
Definition main : M unit :=
  let lr := args.lr a in
  let best_val_ppl := None in
  (if args.train a then
     try_except_KeyboardInterrupt
       (epochs_loop (range 1 (args.epochs a + 1)) lr best_val_ppl)
       (logger WARNING exiting_early)
   else torch_load (args.save a));;
  final_evaluation.
End Program.


(* ================================================================== *)
(** ** What the specification says, in its own terms *)

(** The gradients of one row index added up in their order of
    occurrence, starting from [acc]. *)
Fixpoint merged_from (acc : Row) (i : nat) (g : SparseGrad) : Row :=
  match g with
  | [] => acc
  | (j, v) :: g' => merged_from (if j =? i then tensor_add acc v else acc) i g'
  end.

(** The merged gradient of row [i]: [None] when the step does not touch
    the row. *)
Fixpoint merged_grad (i : nat) (g : SparseGrad) : option Row :=
  match g with
  | [] => None
  | (j, v) :: g' => if j =? i then Some (merged_from v i g') else merged_grad i g'
  end.

(** The rows a gradient has for one index, in the order it lists them,
    and their sum in that order. *)
Definition rows_of (i : nat) (g : SparseGrad) : list Row :=
  (filter (λ e, e.1 = i) g).*2.

Definition sum_rows (rows : list Row) : option Row :=
  match rows with
  | [] => None
  | v :: rest => Some (foldl tensor_add v rest)
  end.

(** The Sparse Update Engine of the specification, on gradients merged
    per index first: [decayed_grad[i] = raw_gradients[i] + weight_decay *
    current_rows[i]], then [row[i] -= learning_rate * decayed_grad[i]],
    for the touched rows only. *)
Definition merge_then_decay (W : Table) (grad : SparseGrad)
    (learning_rate weight_decay : F32.t) : Table :=
  imap (λ i row,
          match merged_grad i grad with
          | Some raw_gradient =>
              let decayed_grad :=
                tensor_add raw_gradient (tensor_scale weight_decay row) in
              tensor_sub row (tensor_scale learning_rate decayed_grad)
          | None => row
          end) W.


(** The arithmetic mean of the values the workers hold for one element:
    their sum, by rank, divided by their number. *)
Definition mean (xs : list F32.t) : F32.t :=
  match xs with
  | [] => F32.of_int 0
  | x :: xs' => F32.div (foldl F32.add x xs') (F32.of_int (Z.of_nat (length xs)))
  end.

(** The mean per-batch loss of an interval of batches. *)
Definition mean_loss (losses : list F64.t) : outcome F64.t :=
  F64.div_int (foldl F64.add F64.zero losses) (Z.of_nat (length losses)).

(** The touched indices of a training step: those present in the
    embedding gradient its backward pass produces. *)
Definition touched_indices `{Collaborators} (w : World) (data_batch : Batch)
  : list nat :=
  match backward (model w) data_batch with
  | Ret (emb_grad, _) => emb_grad.*1
  | Raise _ => []
  end.

(** The process state after [torch.save] of the model to [path], and
    after a record went to the logger. *)
Definition saved (path : string) (w : World) : World :=
  {| model := model w; files := <[path := model w]> (files w); log := log w |}.
Definition logged (l : Level) (msg : Message) (w : World) : World :=
  {| model := model w; files := files w; log := log w ++ [(l, msg)] |}.

(** The process state with the two mode flags of the model set. *)
Definition with_flags (training_flag nce_flag : bool) (w : World) : World :=
  {| model := set_criterion_nce nce_flag (set_training training_flag (model w));
     files := files w; log := log w |}.

(** The process state with the embedding table and the dense parameters
    of the model set. *)
Definition with_params (W : Table) (dense : list Tensor) (w : World) : World :=
  {| model := set_encoder_weight W (set_dense_params dense (model w));
     files := files w; log := log w |}.

(** How one file map comes from another when only the paths of
    [paths] may have been written: the other paths are as they were,
    and no path has lost its file. *)
Definition written_within (paths : list string) (F F' : gmap string Model) : Prop :=
  ∀ p, (p ∉ paths → F' !! p = F !! p) ∧ (is_Some (F !! p) → is_Some (F' !! p)).

(* ================================================================== *)
(** ** Concrete inputs *)

(** The tensor element a decimal literal [n/d] denotes. *)
Definition f32 (n d : Z) : F32.t := F32.round (F64.lit n d).

(** The scenario of the specification: rows 3, 7 and 3 again, with
    gradients [0.1]*4, [0.2]*4 and [0.05]*4. *)
Definition scenario_grad : SparseGrad :=
  [ (3, replicate 4 (f32 1 10)); (7, replicate 4 (f32 2 10));
    (3, replicate 4 (f32 5 100)) ].

(** Collaborators to run the program on small inputs: a batch brings
    its token count, what the forward pass returns and the embedding
    gradient of the backward pass; there is one dense parameter, the
    optimizer leaves it alone, and the other worker of the group holds
    the same values. *)
Record ToyBatch : Type := {
  toy_length : Z;
  toy_loss : outcome F64.t;
  toy_grad : SparseGrad;
}.

(** A sort by index for the toy collaborators: insertion, from the
    last entry to the first. *)
Fixpoint insert_entry (e : nat * list F32.t) (g : SparseGrad) : SparseGrad :=
  match g with
  | [] => [e]
  | x :: g' => if e.1 <=? x.1 then e :: g else x :: insert_entry e g'
  end.

Definition toy_sort : IndexSort.
Proof.
  refine {| sort_entries := foldr insert_entry [] |}.
  assert (∀ e g, insert_entry e g ≡ₚ e :: g) as Hins.
  { intros e g. induction g as [|x g IH]; simpl; [done|].
    destruct (e.1 <=? x.1); [done|]. rewrite IH. apply Permutation_swap. }
  intros g. induction g as [|e g IH]; simpl; [done|].
  by rewrite Hins, IH.
Defined.

Definition toy (exp : F64.t → outcome F64.t) (train valid test : list ToyBatch)
  : Collaborators :=
  {| Batch := ToyBatch;
     batch_length := toy_length;
     index_sort := toy_sort;
     forward := λ _ b _, toy_loss b;
     backward := λ _ b, Ret (toy_grad b, [[]]);
     clip_grad_norm := λ g _, g;
     Optimizer := unit;
     SGD := λ _ _ _, tt;
     optimizer_step := λ o p _, (o, p);
     all_reduce := λ _ _ _ t, tensor_add t t;
     math_exp := exp;
     corpus_train := λ _, train;
     corpus_valid := valid;
     corpus_test := test |}.

(** [math.exp] at the one argument the examples below reach:
    [math.exp(0.0) = 1.0]. *)
Definition exp_at_zero (x : F64.t) : outcome F64.t :=
  if F64.eqb x F64.zero then Ret (F64.lit 1 1) else Raise OverflowError.

(** A batch of [n] tokens with loss [loss] that touches rows 3, 7, 3. *)
Definition toy_batch (n : Z) (loss : F64.t) : ToyBatch :=
  {| toy_length := n; toy_loss := Ret loss; toy_grad := scenario_grad |}.

(** A batch during which the user hits Ctrl-C. *)
Definition interrupted_batch : ToyBatch :=
  {| toy_length := 1; toy_loss := Raise KeyboardInterrupt; toy_grad := [] |}.

(** The toy collaborators with empty data streams. *)
Definition toy_idle : Collaborators := toy exp_at_zero [] [] [].

(** One training batch, one validation batch and one test batch, all
    with loss 0.0. *)
Definition toy_epoch : Collaborators :=
  toy exp_at_zero [toy_batch 1 F64.zero] [toy_batch 1 F64.zero]
      [toy_batch 2 F64.zero].

(** The user interrupts the first training batch. *)
Definition toy_interrupted : Collaborators :=
  toy exp_at_zero [interrupted_batch] [toy_batch 1 F64.zero]
      [toy_batch 2 F64.zero].

(** The toy collaborators with an empty validation stream. *)
Definition toy_no_validation : Collaborators :=
  toy exp_at_zero [toy_batch 1 F64.zero] [] [toy_batch 2 F64.zero].

(** The toy collaborators with an exponential that always returns. *)
Definition toy_with_exp (exp : F64.t → F64.t) : Collaborators :=
  toy (λ x, Ret (exp x)) [] [] [].

Definition toy_model : Model :=
  {| training := true; criterion_nce := true;
     encoder_weight := replicate 10 (replicate 4 (F32.of_int 1));
     dense_params := [[F32.of_int 10]] |}.

Definition toy_world : World :=
  {| model := toy_model; files := ∅; log := [] |}.

Definition toy_args : args.t :=
  {| args.nce := true; args.prof := false; args.cuda := false;
     args.train := true; args.clip := F64.lit 1 4;
     args.log_interval := 2; args.lr := F64.lit 1 2;
     args.lr_decay := F64.lit 2 1; args.weight_decay := F64.lit 1 100;
     args.epochs := 1; args.save := "model.pt" |}.




(** The command line with [--log-interval 0]. *)
Definition zero_interval_args : args.t :=
  {| args.nce := true; args.prof := false; args.cuda := false;
     args.train := true; args.clip := F64.lit 1 4;
     args.log_interval := 0; args.lr := F64.lit 1 2;
     args.lr_decay := F64.lit 2 1; args.weight_decay := F64.lit 1 100;
     args.epochs := 1; args.save := "model.pt" |}.

(** The table of [toy_model] after one update with [scenario_grad],
    learning rate 0.5 and weight decay 0.01. *)
Definition toy_updated : Table :=
  merge_then_decay (encoder_weight toy_model) scenario_grad
    (F32.round (F64.lit 1 2)) (F32.round (F64.lit 1 100)).

(** The same command line with profiling on. *)
Definition prof_args : args.t :=
  {| args.nce := true; args.prof := true; args.cuda := false;
     args.train := true; args.clip := F64.lit 1 4;
     args.log_interval := 2; args.lr := F64.lit 1 2;
     args.lr_decay := F64.lit 2 1; args.weight_decay := F64.lit 1 100;
     args.epochs := 1; args.save := "model.pt" |}.

(** Unfolds the sequencing of statements. *)
Ltac run_stmt :=
  unfold mbind, M_bind, bind, mret, M_ret, ret, raise, lift, get_model,
    modify_model, logger, torch_save in *; simpl in *.

(* ================================================================== *)
(** ** Floating-point facts the update relies on *)

Section FloatLaws.
Variables prec emax : Z.

Lemma binary_round_aux_negb s m e l :
  binary_round_aux prec emax (negb s) m e l
  = SFopp (binary_round_aux prec emax s m e l).
Proof.
  unfold binary_round_aux.
  destruct (shr_fexp prec emax m e l) as [mrs e'].
  destruct (shr_fexp prec emax _ e' loc_Exact) as [mrs' e''].
  destruct (shr_m mrs'); simpl; try reflexivity.
  destruct (e'' <=? emax - prec)%Z; reflexivity.
Qed.

Lemma binary_round_negb s m e :
  binary_round prec emax (negb s) m e = SFopp (binary_round prec emax s m e).
Proof.
  unfold binary_round. destruct (shl_align _ _ _) as [mz ez].
  apply binary_round_aux_negb.
Qed.

Lemma xorb_negb_r (b c : bool) : xorb b (negb c) = negb (xorb b c).
Proof. destruct b, c; reflexivity. Qed.

(** Multiplying by the opposite gives the opposite product. *)
Lemma SFmul_opp_r x y :
  SFmul prec emax x (SFopp y) = SFopp (SFmul prec emax x y).
Proof.
  destruct x as [sx|sx| |sx mx ex], y as [sy|sy| |sy my ey]; simpl;
    rewrite ?xorb_negb_r; try reflexivity.
  apply binary_round_aux_negb.
Qed.

Lemma cond_Zopp_negb s m : cond_Zopp (negb s) m = (- cond_Zopp s m)%Z.
Proof. destruct s; simpl; [apply eq_sym, Z.opp_involutive | reflexivity]. Qed.

(** Adding the opposite is subtracting. *)
Lemma SFadd_opp_r x y :
  SFadd prec emax x (SFopp y) = SFsub prec emax x y.
Proof.
  destruct x as [sx|sx| |sx mx ex], y as [sy|sy| |sy my ey]; simpl;
    try reflexivity.
  - destruct sx, sy; reflexivity.
  - destruct sx, sy; reflexivity.
  - rewrite cond_Zopp_negb. reflexivity.
Qed.
End FloatLaws.

Lemma F32_round_opp (x : F64.t) : F32.round (F64.opp x) = F32.opp (F32.round x).
Proof.
  destruct x as [s|s| |s m e]; simpl; try reflexivity.
  apply binary_round_negb.
Qed.

Lemma tensor_add_scale_opp (c : F32.t) (row d : Tensor) :
  tensor_add row (tensor_scale (F32.opp c) d)
  = tensor_sub row (tensor_scale c d).
Proof.
  unfold tensor_add, tensor_sub, tensor_scale.
  revert d; induction row as [|x row IH]; intros [|y d]; simpl; try reflexivity.
  f_equal; [|apply IH].
  unfold F32.add, F32.sub, F32.mul, F32.opp.
  rewrite SFmul_opp_r. apply SFadd_opp_r.
Qed.

(* ================================================================== *)
(** ** Coalescing a sparse gradient *)

Section Coalesce.
Implicit Types (g acc : SparseGrad) (i j : nat) (v w : Row).

Lemma merged_from_notin w i g : i ∉ g.*1 → merged_from w i g = w.
Proof.
  revert w; induction g as [|[j v] g IH]; intros w Hi; simpl; [done|].
  simpl in Hi. apply not_elem_of_cons in Hi as [Hij Hi].
  destruct (Nat.eqb_spec j i); [congruence|]. by apply IH.
Qed.

Lemma merged_grad_None i g : merged_grad i g = None ↔ i ∉ g.*1.
Proof.
  induction g as [|[j v] g IH]; simpl.
  - split; [intros _; apply not_elem_of_nil | done].
  - rewrite not_elem_of_cons. destruct (Nat.eqb_spec j i) as [->|Hne].
    + split; [done | intros [? _]; done].
    + rewrite IH. split; [intros ?; split; [congruence | done] | intros [_ ?]; done].
Qed.

Lemma merged_grad_is_Some i g : is_Some (merged_grad i g) ↔ i ∈ g.*1.
Proof.
  destruct (merged_grad i g) as [x|] eqn:E.
  - split; [intros _ | by eauto].
    destruct (decide (i ∈ g.*1)) as [|Hn]; [done|].
    apply merged_grad_None in Hn. congruence.
  - split; [intros [? ?]; done |].
    apply merged_grad_None in E. intros ?; done.
Qed.

(** The merged gradient of an index is the sum of the rows the gradient
    has for it, in the order it lists them. *)
Lemma rows_of_cons i j v g :
  rows_of i ((j, v) :: g) = if j =? i then v :: rows_of i g else rows_of i g.
Proof.
  unfold rows_of. rewrite filter_cons. simpl.
  destruct (Nat.eqb_spec j i), (decide (j = i)); done.
Qed.

Lemma merged_from_rows w i g :
  merged_from w i g = foldl tensor_add w (rows_of i g).
Proof.
  revert w; induction g as [|[j v] g IH]; intros w; [done|].
  simpl. rewrite rows_of_cons, IH. by destruct (j =? i).
Qed.

Lemma merged_grad_rows i g : merged_grad i g = sum_rows (rows_of i g).
Proof.
  induction g as [|[j v] g IH]; [done|].
  simpl. rewrite rows_of_cons. destruct (j =? i); [|done].
  simpl. by rewrite merged_from_rows.
Qed.

(** Reordering the entries reorders the rows of every index, and
    neither adds nor drops one. *)
Lemma rows_of_Permutation i g g' : g ≡ₚ g' → rows_of i g ≡ₚ rows_of i g'.
Proof. intros Hp. unfold rows_of. by rewrite Hp. Qed.

Lemma accumulate_keys (P : nat → Prop) i v acc :
  P i → Forall P acc.*1 → Forall P (accumulate i v acc).*1.
Proof.
  intros Hi. induction acc as [|[j w] acc IH]; simpl; intros Hacc.
  - by constructor.
  - apply Forall_cons in Hacc as [Hj Hacc].
    destruct (i <? j); [|destruct (i =? j)]; simpl; repeat constructor; auto.
Qed.

Lemma accumulate_sorted i v acc :
  StronglySorted lt acc.*1 → StronglySorted lt (accumulate i v acc).*1.
Proof.
  induction acc as [|[j w] acc IH]; simpl; intros Hs.
  - repeat constructor.
  - apply StronglySorted_inv in Hs as [Hs Hj].
    destruct (Nat.ltb_spec i j) as [Hlt|Hge]; simpl.
    + constructor; [by constructor|]. constructor; [done|].
      eapply Forall_impl; [exact Hj|]. simpl; lia.
    + destruct (Nat.eqb_spec i j) as [->|Hne]; simpl.
      * by constructor.
      * constructor; [by apply IH|].
        apply accumulate_keys; [lia | done].
Qed.

Lemma Forall_lt_notin i (ks : list nat) : Forall (lt i) ks → i ∉ ks.
Proof.
  intros Hall Hin. rewrite Forall_forall in Hall.
  specialize (Hall _ Hin). lia.
Qed.

(** What one more entry does to the merged gradient of every index. *)
Lemma merged_grad_accumulate i v acc j :
  StronglySorted lt acc.*1 →
  merged_grad j (accumulate i v acc)
  = if i =? j
    then Some (match merged_grad j acc with
               | Some w => tensor_add w v
               | None => v
               end)
    else merged_grad j acc.
Proof.
  induction acc as [|[k w] acc IH]; simpl; intros Hs.
  - reflexivity.
  - apply StronglySorted_inv in Hs as [Hs Hk].
    destruct (Nat.ltb_spec i k) as [Hlt|Hge]; simpl.
    + destruct (Nat.eqb_spec i j) as [->|Hij]; [|reflexivity].
      destruct (Nat.eqb_spec k j); [lia|].
      assert (j ∉ acc.*1) as Hn.
      { apply Forall_lt_notin. eapply Forall_impl; [exact Hk|]. simpl; lia. }
      rewrite (merged_from_notin _ _ _ Hn).
      apply merged_grad_None in Hn. by rewrite Hn.
    + destruct (Nat.eqb_spec i k) as [->|Hik]; simpl.
      * destruct (Nat.eqb_spec k j) as [->|Hkj]; [|reflexivity].
        rewrite !merged_from_notin by (by apply Forall_lt_notin).
        reflexivity.
      * destruct (Nat.eqb_spec k j) as [->|Hkj].
        -- destruct (Nat.eqb_spec i j); [lia|].
           rewrite !merged_from_notin; [done|by apply Forall_lt_notin|].
           apply Forall_lt_notin, accumulate_keys; [lia|done].
        -- by apply IH.
Qed.

Lemma fold_accumulate_sorted g acc :
  StronglySorted lt acc.*1 →
  StronglySorted lt (fold_left (λ acc e, accumulate e.1 e.2 acc) g acc).*1.
Proof.
  revert acc; induction g as [|[i v] g IH]; simpl; intros acc Hs; [done|].
  by apply IH, accumulate_sorted.
Qed.

Lemma merged_grad_fold g acc j :
  StronglySorted lt acc.*1 →
  merged_grad j (fold_left (λ acc e, accumulate e.1 e.2 acc) g acc)
  = match merged_grad j acc with
    | Some w => Some (merged_from w j g)
    | None => merged_grad j g
    end.
Proof.
  revert acc; induction g as [|[i v] g IH]; simpl; intros acc Hs.
  - by destruct (merged_grad j acc).
  - rewrite IH by (by apply accumulate_sorted).
    rewrite merged_grad_accumulate by done.
    destruct (Nat.eqb_spec i j); by destruct (merged_grad j acc).
Qed.

(** Summing the duplicates leaves the indices sorted and without
    repetition... *)
Lemma sum_duplicates_sorted g : StronglySorted lt (sum_duplicates g).*1.
Proof. apply fold_accumulate_sorted. constructor. Qed.

(** ... and gives every index the sum of its gradients, in the order
    of the entries. *)
Lemma merged_grad_sum_duplicates g j :
  merged_grad j (sum_duplicates g) = merged_grad j g.
Proof. unfold sum_duplicates. rewrite merged_grad_fold; [done | constructor]. Qed.

Lemma sum_duplicates_keys g j : j ∈ (sum_duplicates g).*1 ↔ j ∈ g.*1.
Proof. by rewrite <-!merged_grad_is_Some, merged_grad_sum_duplicates. Qed.

(** The sort neither adds nor drops an index. *)
Lemma sort_entries_keys `{IndexSort} g j : j ∈ (sort_entries g).*1 ↔ j ∈ g.*1.
Proof. by rewrite (sort_entries_perm g). Qed.

Lemma coalesce_sorted `{IndexSort} g : StronglySorted lt (coalesce g).*1.
Proof. apply sum_duplicates_sorted. Qed.

Lemma merged_grad_coalesce `{IndexSort} g j :
  merged_grad j (coalesce g) = merged_grad j (sort_entries g).
Proof. apply merged_grad_sum_duplicates. Qed.

Lemma coalesce_keys `{IndexSort} g j : j ∈ (coalesce g).*1 ↔ j ∈ g.*1.
Proof. unfold coalesce. by rewrite sum_duplicates_keys, sort_entries_keys. Qed.

Lemma sorted_lt_NoDup (ks : list nat) : StronglySorted lt ks → NoDup ks.
Proof.
  induction 1 as [|k ks Hs IH Hk]; constructor; [|done].
  by apply Forall_lt_notin.
Qed.

(** In a coalesced gradient the merged gradient of an index is the
    value of its one entry. *)
Lemma merged_grad_sorted_lookup g j x :
  StronglySorted lt g.*1 → merged_grad j g = Some x →
  ∃ k, g !! k = Some (j, x).
Proof.
  induction g as [|[i v] g IH]; simpl; intros Hs Hm; [done|].
  apply StronglySorted_inv in Hs as [Hs Hi].
  destruct (Nat.eqb_spec i j) as [->|Hne].
  - exists 0. rewrite merged_from_notin in Hm by (by apply Forall_lt_notin).
    by simplify_eq.
  - destruct (IH Hs Hm) as [k Hk]. by exists (S k).
Qed.
End Coalesce.

(* ================================================================== *)
(** ** Indexed reads and writes of the table *)

Section Indexing.
Implicit Types (W : Table) (indices : list nat) (src rows : list Row).

Lemma index_select_Ret W indices :
  Forall (λ i, i < length W) indices →
  ∃ rows, index_select W indices = Ret rows
          ∧ Forall2 (λ i r, W !! i = Some r) indices rows.
Proof.
  induction 1 as [|i indices Hi _ [rows [Hsel Hrows]]]; simpl.
  - exists []. by split.
  - apply lookup_lt_is_Some in Hi as [r Hr]. rewrite Hr, Hsel. simpl.
    exists (r :: rows). split; [done | by constructor].
Qed.

Lemma index_add_length W indices src W' :
  index_add_ W indices src = Ret W' → length W' = length W.
Proof.
  revert W src; induction indices as [|i indices IH]; intros W [|s src]; simpl;
    try done.
  - by intros [= ->].
  - destruct (W !! i); [|done]. intros Hadd.
    rewrite (IH _ _ Hadd). apply length_insert.
Qed.

(** A row that no index names is left as it was. *)
Lemma index_add_frame W indices src W' i :
  index_add_ W indices src = Ret W' → i ∉ indices → W' !! i = W !! i.
Proof.
  revert W src; induction indices as [|j indices IH]; intros W [|s src]; simpl;
    try done.
  - by intros [= ->].
  - destruct (W !! j) as [r|]; [|done]. intros Hadd Hi.
    apply not_elem_of_cons in Hi as [Hij Hi].
    rewrite (IH _ _ Hadd Hi). by apply list_lookup_insert_ne.
Qed.

(** With indices in range and as many rows as indices, the call
    returns. *)
Lemma index_add_Ret W indices src :
  Forall (λ i, i < length W) indices → length indices = length src →
  ∃ W', index_add_ W indices src = Ret W'.
Proof.
  revert W src; induction indices as [|i indices IH]; intros W [|s src] Hr Hl;
    simpl in *; try done.
  - by eexists.
  - apply Forall_cons in Hr as [Hi Hr].
    apply lookup_lt_is_Some in Hi as [r ->].
    apply IH; [|lia].
    eapply Forall_impl; [exact Hr|]. intros j Hj. by rewrite length_insert.
Qed.

(** Without repeated indices, the row an index names gets its source
    row added, once. *)
Lemma index_add_touched W indices src W' k i s r :
  NoDup indices → index_add_ W indices src = Ret W' →
  indices !! k = Some i → src !! k = Some s → W !! i = Some r →
  W' !! i = Some (tensor_add r s).
Proof.
  revert W src k; induction indices as [|j indices IH];
    intros W [|s0 src] k Hnd; simpl; try done.
  destruct (W !! j) as [r0|] eqn:Hr0; [|done].
  apply NoDup_cons in Hnd as [Hj Hnd]. intros Hadd Hk Hs Hr.
  destruct k as [|k]; simpl in *.
  - simplify_eq. rewrite (index_add_frame _ _ _ _ _ Hadd Hj).
    apply list_lookup_insert_eq. by eapply lookup_lt_Some.
  - assert (i ≠ j) as Hij.
    { intros ->. apply Hj. by eapply list_elem_of_lookup_2. }
    eapply IH; eauto. by rewrite list_lookup_insert_ne.
Qed.
End Indexing.

(* ================================================================== *)
(** ** The sparse update *)

(** A gradient without entries stops the update at line 129, with the
    table as it was. *)
Lemma sparse_update_empty `{IndexSort} (W : Table) (lr weight_decay : F64.t) :
  sparse_update W [] lr weight_decay = Raise RuntimeError.
Proof.
  unfold sparse_update, coalesce.
  by rewrite (proj1 (Permutation_nil_r _) (sort_entries_perm [])).
Qed.

Lemma values_add_Ret (values w_d : list Row) :
  values ≠ [] → values_add_ values w_d = Ret (zip_with tensor_add values w_d).
Proof. by destruct values. Qed.

Lemma coalesce_not_nil `{IndexSort} (grad : SparseGrad) :
  grad ≠ [] → (coalesce grad).*2 ≠ [].
Proof.
  destruct grad as [|[i v] grad]; [done|]. intros _ Hnil.
  apply fmap_nil_inv in Hnil.
  assert (i ∈ (coalesce ((i, v) :: grad)).*1) as Hi.
  { apply coalesce_keys. simpl. by left. }
  rewrite Hnil in Hi. by apply elem_of_nil in Hi.
Qed.

(** With entries, and every index of the gradient inside the table,
    lines 126-131 compute the merge-then-decay update of the
    specification, on the entries as the sort of [coalesce()] orders
    them. *)
Lemma sparse_update_merge_then_decay `{IndexSort} (W : Table) (grad : SparseGrad)
    (lr weight_decay : F64.t) :
  grad ≠ [] →
  Forall (λ i, i < length W) grad.*1 →
  sparse_update W grad lr weight_decay
  = Ret (merge_then_decay W (sort_entries grad)
           (F32.round lr) (F32.round weight_decay)).
Proof.
  intros Hentries Hrange. unfold sparse_update.
  pose proof (coalesce_not_nil grad Hentries) as Hvalues.
  pose proof (coalesce_sorted grad) as Hsorted.
  assert (Forall (λ i, i < length W) (coalesce grad).*1) as Hrange'.
  { rewrite Forall_forall in Hrange. apply Forall_forall. intros i Hi.
    by apply Hrange, coalesce_keys. }
  destruct (index_select_Ret W _ Hrange') as [rows [-> Hrows]]. simpl.
  rewrite values_add_Ret by done. simpl.
  set (emb_grad := coalesce grad) in *.
  set (values := zip_with tensor_add emb_grad.*2
                   (tensor_scale (F32.round weight_decay) <$> rows)).
  set (src := tensor_scale (F32.round (F64.opp lr)) <$> values).
  assert (length rows = length emb_grad) as Hlen_rows.
  { apply Forall2_length in Hrows. by rewrite length_fmap in Hrows. }
  assert (length emb_grad.*1 = length src) as Hlen.
  { unfold src, values.
    rewrite !length_fmap, length_zip_with, !length_fmap. lia. }
  destruct (index_add_Ret W _ src Hrange' Hlen) as [W' HW'].
  rewrite HW'. f_equal. apply list_eq. intros i.
  unfold merge_then_decay. rewrite list_lookup_imap.
  destruct (W !! i) as [r|] eqn:Hr; simpl.
  - rewrite <-(merged_grad_coalesce grad i). fold emb_grad.
    destruct (merged_grad i emb_grad) as [x|] eqn:Hm.
    + destruct (merged_grad_sorted_lookup _ _ _ Hsorted Hm) as [k Hk].
      assert (emb_grad.*1 !! k = Some i) as Hki.
      { by rewrite list_lookup_fmap, Hk. }
      assert (rows !! k = Some r) as Hkr.
      { destruct (Forall2_lookup_l _ _ _ _ _ Hrows Hki) as [r' [Hr' Hrr']].
        congruence. }
      assert (src !! k
              = Some (tensor_scale (F32.round (F64.opp lr))
                        (tensor_add x (tensor_scale (F32.round weight_decay) r))))
        as Hks.
      { unfold src, values.
        rewrite list_lookup_fmap, lookup_zip_with, !list_lookup_fmap, Hk, Hkr.
        reflexivity. }
      rewrite (index_add_touched _ _ _ _ _ _ _ _
                 (sorted_lt_NoDup _ Hsorted) HW' Hki Hks Hr).
      by rewrite F32_round_opp, tensor_add_scale_opp.
    + rewrite (index_add_frame _ _ _ _ _ HW'); [done|].
      by apply merged_grad_None.
  - apply lookup_ge_None. rewrite (index_add_length _ _ _ _ HW').
    by apply lookup_ge_None.
Qed.

(** Whatever the gradient, a row it does not touch keeps its value. *)
Lemma sparse_update_frame `{IndexSort} (W W' : Table) (grad : SparseGrad)
    (lr weight_decay : F64.t) (i : nat) :
  sparse_update W grad lr weight_decay = Ret W' → i ∉ grad.*1 →
  W' !! i = W !! i.
Proof.
  unfold sparse_update.
  destruct (index_select W _) as [rows|e]; simpl; [|done].
  destruct (values_add_ _ _) as [values|e]; simpl; [|done].
  intros Hadd Hi. eapply index_add_frame; [exact Hadd|].
  by rewrite coalesce_keys.
Qed.

(* ================================================================== *)
(** ** One step of training *)

Section TrainBatch.
Context `{Collaborators}.
Variable a : args.t.

(** The table a training step leaves: the sparse update of the table
    it found when the forward pass, the backward pass and the update
    all return, and the table it found otherwise. *)
Lemma train_batch_encoder_weight epoch lr weight_decay num_batch data_batch s w :
  encoder_weight (model (train_batch a epoch lr weight_decay num_batch data_batch s w).2)
  = match forward (model w) data_batch (Some lr), backward (model w) data_batch with
    | Ret _, Ret (emb_grad, _) =>
        match sparse_update (encoder_weight (model w)) emb_grad lr weight_decay with
        | Ret W' => W'
        | Raise _ => encoder_weight (model w)
        end
    | _, _ => encoder_weight (model w)
    end.
Proof.
  unfold train_batch. destruct s as [optimizer total_loss]. run_stmt.
  destruct (forward _ _ _) as [loss|e]; simpl; [|done].
  destruct (backward _ _) as [[emb_grad dense_grad]|e]; simpl; [|done].
  destruct (optimizer_step _ _ _) as [optimizer' dense]; simpl.
  destruct (sparse_update _ _ _ _) as [W'|e]; simpl; [|done].
  destruct (args.prof a); simpl; [done|].
  destruct (py_mod _ _) as [r|e]; simpl; [|done].
  destruct ((r =? 0)%Z && (0 <? num_batch)%Z); simpl; [|done].
  destruct (math_exp _) as [ppl|e]; simpl; done.
Qed.
End TrainBatch.

(** C1.  In every step of [train], whatever the step's outcome, a row
    of the embedding table whose index is not among the indices of the
    step's embedding gradient has the same value after the step as
    before it: the update adds nothing to it, weight decay included. *)
Theorem train_batch_untouched_rows `{Collaborators} (a : args.t)
    (epoch : Z) (lr weight_decay : F64.t) (num_batch : Z) (data_batch : Batch)
    (s : Optimizer * F64.t) (w : World) (i : nat) :
  i ∉ touched_indices w data_batch →
  encoder_weight (model (train_batch a epoch lr weight_decay num_batch data_batch s w).2) !! i
  = encoder_weight (model w) !! i.
Proof.
  unfold touched_indices. intros Hi. rewrite train_batch_encoder_weight.
  destruct (forward _ _ _) as [loss|e]; [|done].
  destruct (backward _ _) as [[emb_grad dense_grad]|e]; [|done].
  destruct (sparse_update _ _ _ _) as [W'|e] eqn:Hup; [|done].
  by eapply sparse_update_frame.
Qed.

Lemma train_batch_untouched_rows_witness :
  (5 ∉ @touched_indices toy_idle toy_world (toy_batch 1 F64.zero))
  ∧ encoder_weight
      (model (@train_batch toy_idle toy_args 1 (F64.lit 1 2) (F64.lit 1 100)
                0 (toy_batch 1 F64.zero) (tt, F64.zero) toy_world).2) !! 5
    = encoder_weight (model toy_world) !! 5.
Proof.
  assert (5 ∉ (@touched_indices toy_idle toy_world (toy_batch 1 F64.zero)))
    as Hi.
  { unfold touched_indices; simpl. rewrite !not_elem_of_cons.
    repeat split; try lia. apply not_elem_of_nil. }
  split; [exact Hi|].
  exact (@train_batch_untouched_rows toy_idle toy_args 1
           (F64.lit 1 2) (F64.lit 1 100) 0 (toy_batch 1 F64.zero)
           (tt, F64.zero) toy_world 5 Hi).
Defined.

(** C2.  A gradient that names a row more than once is merged first and
    decayed once.  For every order in which [coalesce()] sorts the
    entries, a gradient that is not empty and has every index inside
    the table makes lines 126-131 return the merge-then-decay update of
    the specification: the merged gradient of a row is the sum of the
    rows the gradient has for it, which the sort may have reordered but
    neither added to nor dropped from, and the decay is applied to that
    sum, once.  So does every step of [train] whose forward and
    backward passes return.  In the scenario of the specification (1000
    rows of 4, rows 3, 7, 3 with gradients [0.1]*4, [0.2]*4, [0.05]*4,
    weight decay 0.01, learning rate 0.5, row 3 all ones) the new row 3
    is [0.92]*4, in whichever order the two gradients of row 3 are
    added. *)
Theorem sparse_update_duplicates :
  (∀ (S : IndexSort) (W : Table) (grad : SparseGrad) (lr weight_decay : F64.t),
     grad ≠ [] →
     Forall (λ i, i < length W) grad.*1 →
     sparse_update W grad lr weight_decay
     = Ret (merge_then_decay W (sort_entries grad)
              (F32.round lr) (F32.round weight_decay))
     ∧ ∀ i, merged_grad i (sort_entries grad)
            = sum_rows (rows_of i (sort_entries grad))
            ∧ rows_of i (sort_entries grad) ≡ₚ rows_of i grad)
  ∧ (∀ (C : Collaborators) (a : args.t) (epoch : Z) (lr weight_decay : F64.t)
       (num_batch : Z) (data_batch : Batch) (s : Optimizer * F64.t) (w : World)
       (loss : F64.t) (emb_grad : SparseGrad) (dense_grad : list Tensor),
     forward (model w) data_batch (Some lr) = Ret loss →
     backward (model w) data_batch = Ret (emb_grad, dense_grad) →
     emb_grad ≠ [] →
     Forall (λ i, i < length (encoder_weight (model w))) emb_grad.*1 →
     encoder_weight (model (train_batch a epoch lr weight_decay num_batch data_batch s w).2)
     = merge_then_decay (encoder_weight (model w)) (sort_entries emb_grad)
         (F32.round lr) (F32.round weight_decay))
  ∧ (∀ (S : IndexSort) (W : Table),
     length W = 1000 → W !! 3 = Some (replicate 4 (F32.of_int 1)) →
     ∃ W', sparse_update W scenario_grad (F64.lit 5 10) (F64.lit 1 100) = Ret W'
           ∧ W' !! 3 = Some (replicate 4 (f32 92 100))).
Proof.
  split; [|split].
  - intros S W grad lr weight_decay Hentries Hrange.
    split; [by apply sparse_update_merge_then_decay|].
    intros i. split; [apply merged_grad_rows|].
    apply rows_of_Permutation, sort_entries_perm.
  - intros C a epoch lr weight_decay num_batch data_batch s w loss emb_grad
      dense_grad Hf Hb Hentries Hrange.
    rewrite train_batch_encoder_weight, Hf, Hb.
    by rewrite sparse_update_merge_then_decay.
  - intros S W Hlen H3. eexists. split.
    + apply sparse_update_merge_then_decay; [done|]. rewrite Hlen.
      repeat constructor; simpl; lia.
    + unfold merge_then_decay. rewrite list_lookup_imap, H3. simpl.
      rewrite merged_grad_rows.
      pose proof (rows_of_Permutation 3 _ _ (sort_entries_perm scenario_grad))
        as Hperm.
      change (rows_of 3 scenario_grad)
        with [replicate 4 (f32 1 10); replicate 4 (f32 5 100)] in Hperm.
      symmetry in Hperm. apply Permutation_length_2_inv in Hperm as [-> | ->];
        vm_compute; reflexivity.
Qed.

Lemma sparse_update_duplicates_witness :
  let W := replicate 1000 (replicate 4 (F32.of_int 1)) in
  ∃ W', @sparse_update toy_sort W scenario_grad (F64.lit 5 10) (F64.lit 1 100)
        = Ret W'
        ∧ W' !! 3 = Some (replicate 4 (f32 92 100)).
Proof.
  apply (proj2 (proj2 sparse_update_duplicates) toy_sort
           (replicate 1000 (replicate 4 (F32.of_int 1)))).
  - apply length_replicate.
  - reflexivity.
Defined.

(* ================================================================== *)
(** ** Synchronizing the dense parameters *)

Section Sync.
Implicit Types (group : list (list Tensor)) (q p : Tensor).

Lemma tensor_add_lookup q1 q2 j x1 x2 :
  q1 !! j = Some x1 → q2 !! j = Some x2 →
  tensor_add q1 q2 !! j = Some (F32.add x1 x2).
Proof.
  intros H1 H2. unfold tensor_add. by rewrite lookup_zip_with, H1, H2.
Qed.

(** An element of a sum of tensors is the sum of their elements. *)
Lemma foldl_tensor_add_lookup (qs : list Tensor) (xs : list F32.t) q0 x0 j :
  q0 !! j = Some x0 → Forall2 (λ q x, q !! j = Some x) qs xs →
  foldl tensor_add q0 qs !! j = Some (foldl F32.add x0 xs).
Proof.
  intros H0 Hall. revert q0 x0 H0.
  induction Hall as [|q x qs xs Hq _ IH]; intros q0 x0 H0; simpl; [done|].
  apply IH. by apply tensor_add_lookup.
Qed.

(** When every worker holds a [k]-th parameter of [n] elements, the
    group contributes one tensor per worker, and one value per worker
    for each of the [n] positions. *)
Lemma contributions_elements group k j n :
  j < n →
  Forall (λ dense, ∃ q, dense !! k = Some q ∧ length q = n) group →
  ∃ (qs : list Tensor) (xs : list F32.t),
    contributions group k = qs
    ∧ Forall2 (λ q x, q !! j = Some x) qs xs
    ∧ Forall2 (λ dense x, ∃ q, dense !! k = Some q ∧ q !! j = Some x) group xs.
Proof.
  intros Hj. unfold contributions.
  induction 1 as [|dense group [q [Hq Hlen]] _ (qs & xs & Hqs & Hel & Hgr)]; simpl.
  - exists [], []. by repeat split; constructor.
  - assert (is_Some (q !! j)) as [x Hx] by (apply lookup_lt_is_Some; lia).
    exists (q :: qs), (x :: xs). subst qs.
    change (omap (λ dense, dense !! k) (dense :: group))
      with (match dense !! k with
            | Some y => y :: omap (λ dense, dense !! k) group
            | None => omap (λ dense, dense !! k) group
            end).
    rewrite Hq. repeat split; constructor; eauto.
Qed.

Lemma group_sync_element world_size group r k j dense p :
  Z.of_nat (length group) = world_size →
  group !! r = Some dense → dense !! k = Some p → j < length p →
  Forall (λ dense, ∃ q, dense !! k = Some q ∧ length q = length p) group →
  ∃ xs : list F32.t,
    Forall2 (λ dense x, ∃ q, dense !! k = Some q ∧ q !! j = Some x) group xs
    ∧ ∃ dense' p', group_sync world_size group !! r = Some dense'
        ∧ dense' !! k = Some p' ∧ p' !! j = Some (mean xs).
Proof.
  intros Hws Hr Hk Hj Hall.
  destruct (contributions_elements group k j _ Hj Hall)
    as (qs & xs & Hqs & Hel & Hgr).
  exists xs. split; [done|].
  exists (sync_dense (group_all_reduce group) world_size dense).
  eexists. split; [|split].
  - unfold group_sync. by rewrite list_lookup_fmap, Hr.
  - unfold sync_dense. by rewrite list_lookup_imap, Hk.
  - unfold tensor_div, group_all_reduce, reduce_sum.
    rewrite list_lookup_fmap, Hqs.
    pose proof (Forall2_length _ _ _ Hgr) as Hlen.
    destruct Hel as [|q0 x0 qs xs H0 Hel].
    + apply Forall2_nil_inv_r in Hgr. by subst.
    + rewrite (foldl_tensor_add_lookup _ _ _ _ _ H0 Hel). simpl.
      by rewrite <-Hws, Hlen.
Qed.
End Sync.

Section TrainSync.
Context `{Collaborators}.
Variable a : args.t.

(** The dense parameters a training step leaves when it reaches a
    synchronization point: what the optimizer made of them,
    synchronized. *)
Lemma train_batch_sync epoch lr weight_decay num_batch data_batch
    (optimizer : Optimizer) total_loss w loss emb_grad dense_grad W' :
  args.prof a = false → args.log_interval a ≠ 0%Z →
  (num_batch mod args.log_interval a = 0)%Z → (0 < num_batch)%Z →
  forward (model w) data_batch (Some lr) = Ret loss →
  backward (model w) data_batch = Ret (emb_grad, dense_grad) →
  sparse_update (encoder_weight (model w)) emb_grad lr weight_decay = Ret W' →
  dense_params
    (model (train_batch a epoch lr weight_decay num_batch data_batch
              (optimizer, total_loss) w).2)
  = sync_dense (all_reduce epoch num_batch) WORLD_SIZE
      (optimizer_step optimizer (dense_params (model w))
         (clip_grad_norm dense_grad (args.clip a))).2.
Proof.
  intros Hprof Hli Hmod Hpos Hf Hb Hup.
  unfold train_batch. run_stmt. rewrite Hf; simpl. rewrite Hb; simpl.
  destruct (optimizer_step _ _ _) as [optimizer' dense]; simpl.
  rewrite Hup; simpl. rewrite Hprof. unfold py_mod.
  destruct (Z.eqb_spec (args.log_interval a) 0) as [|_]; [done|]. simpl.
  rewrite Hmod. simpl.
  destruct (Z.ltb_spec 0 num_batch) as [_|]; [|lia]. simpl.
  destruct (math_exp _) as [ppl|e]; simpl; done.
Qed.
End TrainSync.

(** C3.  In a group of as many workers as [dist.get_world_size()]
    says, a synchronization replaces every element of every dense
    parameter, at every worker, by the arithmetic mean of the values the
    workers hold for it (their sum divided by the number of workers);
    a step of [train] at a synchronization point leaves the dense
    parameters so synchronized; and the two workers of the program,
    holding 10.0 and 20.0, both hold 15.0 afterwards. *)
Theorem sync_dense_mean :
  (∀ (world_size : Z) (group : list (list Tensor)) (r k j : nat)
     (dense : list Tensor) (p : Tensor),
     Z.of_nat (length group) = world_size →
     group !! r = Some dense → dense !! k = Some p → j < length p →
     Forall (λ dense, ∃ q, dense !! k = Some q ∧ length q = length p) group →
     ∃ xs : list F32.t,
       Forall2 (λ dense x, ∃ q, dense !! k = Some q ∧ q !! j = Some x) group xs
       ∧ ∃ dense' p', group_sync world_size group !! r = Some dense'
           ∧ dense' !! k = Some p' ∧ p' !! j = Some (mean xs))
  ∧ (∀ (C : Collaborators) (a : args.t) (epoch : Z) (lr weight_decay : F64.t)
       (num_batch : Z) (data_batch : Batch) (optimizer : Optimizer)
       (total_loss : F64.t) (w : World) (loss : F64.t) (emb_grad : SparseGrad)
       (dense_grad : list Tensor) (W' : Table),
     args.prof a = false → args.log_interval a ≠ 0%Z →
     (num_batch mod args.log_interval a = 0)%Z → (0 < num_batch)%Z →
     forward (model w) data_batch (Some lr) = Ret loss →
     backward (model w) data_batch = Ret (emb_grad, dense_grad) →
     sparse_update (encoder_weight (model w)) emb_grad lr weight_decay = Ret W' →
     dense_params
       (model (train_batch a epoch lr weight_decay num_batch data_batch
                 (optimizer, total_loss) w).2)
     = sync_dense (all_reduce epoch num_batch) WORLD_SIZE
         (optimizer_step optimizer (dense_params (model w))
            (clip_grad_norm dense_grad (args.clip a))).2)
  ∧ group_sync WORLD_SIZE [[[f32 10 1]]; [[f32 20 1]]]
    = [[[f32 15 1]]; [[f32 15 1]]].
Proof.
  split; [exact group_sync_element|]. split.
  - intros C a. exact (train_batch_sync a).
  - vm_compute. reflexivity.
Qed.

Lemma sync_dense_mean_witness :
  ∃ xs : list F32.t,
    Forall2 (λ dense x, ∃ q, dense !! 0 = Some q ∧ q !! 0 = Some x)
      [[[f32 10 1]]; [[f32 20 1]]] xs
    ∧ ∃ dense' p',
        group_sync WORLD_SIZE [[[f32 10 1]]; [[f32 20 1]]] !! 1 = Some dense'
        ∧ dense' !! 0 = Some p' ∧ p' !! 0 = Some (mean xs).
Proof.
  apply (proj1 sync_dense_mean WORLD_SIZE [[[f32 10 1]]; [[f32 20 1]]] 1 0 0
           [[f32 20 1]] [f32 20 1]).
  - reflexivity.
  - reflexivity.
  - reflexivity.
  - simpl. lia.
  - repeat constructor; eexists; (split; [reflexivity|reflexivity]).
Defined.

(* ================================================================== *)
(** ** Evaluation *)

Section Evaluate.
Context `{Collaborators}.
Variable a : args.t.

(** The loop of [evaluate] reads the model and changes nothing. *)
Lemma for_each_evaluate_batch_world data_source s w :
  (for_each evaluate_batch data_source s w).2 = w.
Proof.
  revert s w; induction data_source as [|b data_source IH]; intros [el tl] w;
    simpl; [done|].
  unfold evaluate_batch at 1. run_stmt.
  destruct (forward _ _ _) as [loss|e]; simpl; [|done].
  apply IH.
Qed.

(** [evaluate] changes the two flags of the model and nothing else: it
    leaves evaluation mode on, and the NCE flag on unless a batch
    raised. *)
Lemma evaluate_world data_source w :
  (evaluate data_source w).2
  = with_flags false
      (match (for_each evaluate_batch data_source (F64.zero, 0%Z)
                (with_flags false false w)).1 with
       | Ret _ => true
       | Raise _ => false
       end) w.
Proof.
  unfold evaluate. run_stmt.
  change {| model := set_criterion_nce false (set_training false (model w));
            files := files w; log := log w |} with (with_flags false false w).
  pose proof (for_each_evaluate_batch_world data_source (F64.zero, 0%Z)
                (with_flags false false w)) as Hw.
  destruct (for_each _ _ _ _) as [[[el tl]|e] w']; simpl in *; subst w'.
  - destruct data_source as [|b rest]; reflexivity.
  - reflexivity.
Qed.

Lemma evaluate_Ret_loop data_source w ppl w' :
  evaluate data_source w = (Ret ppl, w') →
  ∃ s, (for_each evaluate_batch data_source (F64.zero, 0%Z)
          (with_flags false false w)).1 = Ret s.
Proof.
  unfold evaluate. run_stmt.
  change {| model := set_criterion_nce false (set_training false (model w));
            files := files w; log := log w |} with (with_flags false false w).
  destruct (for_each _ _ _ _) as [[[el tl]|e] w'']; simpl; [by eauto|done].
Qed.

(** [train] sets both flags before anything else: the flags it finds
    do not matter. *)
Lemma train_with_flags data_source epoch lr weight_decay momentum t n w :
  train a data_source epoch lr weight_decay momentum (with_flags t n w)
  = train a data_source epoch lr weight_decay momentum w.
Proof. unfold train. run_stmt. reflexivity. Qed.
End Evaluate.

(** C6.  On a data stream without batches [evaluate] raises
    [ZeroDivisionError] (the division of the line that returns), with
    the model in evaluation mode and the NCE flag on; it returns no
    perplexity, NaN or other. *)
Theorem evaluate_empty_stream `{Collaborators} (w : World) :
  evaluate [] w = (Raise ZeroDivisionError, with_flags false true w).
Proof. unfold evaluate. run_stmt. reflexivity. Qed.

(** C5, as the program has it.  [evaluate] does not put back the flags
    it found: however it ends, it leaves the model in evaluation mode;
    when it returns a perplexity, a model that came in with the NCE flag
    on has it on again.  Training resumes unaffected all the same:
    [train] sets both flags itself, and run on the state [evaluate]
    leaves, however [evaluate] ended, it does what it does on the state
    before [evaluate]. *)
Theorem evaluate_mode_flags :
  (∀ (C : Collaborators) (data_source : list Batch) (w : World),
     training (model (evaluate data_source w).2) = false)
  ∧ (∀ (C : Collaborators) (data_source : list Batch) (w w' : World) (ppl : F64.t),
       evaluate data_source w = (Ret ppl, w') →
       criterion_nce (model w) = true → criterion_nce (model w') = true)
  ∧ (∀ (C : Collaborators) (a : args.t) (data_source train_source : list Batch)
       (epoch : Z) (lr weight_decay momentum : F64.t) (w : World),
       train a train_source epoch lr weight_decay momentum (evaluate data_source w).2
       = train a train_source epoch lr weight_decay momentum w).
Proof.
  split; [|split].
  - intros C data_source w. by rewrite evaluate_world.
  - intros C data_source w w' ppl Hev _.
    destruct (evaluate_Ret_loop _ _ _ _ Hev) as [s Hs].
    pose proof (evaluate_world data_source w) as Hw.
    rewrite Hev, Hs in Hw. simpl in Hw. by subst w'.
  - intros C a data_source train_source epoch lr weight_decay momentum w.
    rewrite evaluate_world. apply train_with_flags.
Qed.

Lemma evaluate_mode_flags_witness :
  criterion_nce
    (model (@evaluate toy_idle [toy_batch 1 F64.zero] toy_world).2) = true.
Proof.
  apply (proj1 (proj2 evaluate_mode_flags) toy_idle [toy_batch 1 F64.zero]
           toy_world _ (F64.lit 1 1)).
  - vm_compute. reflexivity.
  - reflexivity.
Defined.

(** C5, as the specification has it, fails: a model in training mode
    with the NCE flag on comes back from an evaluation that returns in
    evaluation mode, and from one that a batch ends early with the NCE
    flag off as well. *)
Lemma evaluate_restore_counterexample :
  training (model toy_world) = true
  ∧ criterion_nce (model toy_world) = true
  ∧ (@evaluate toy_idle [toy_batch 1 F64.zero] toy_world).1 = Ret (F64.lit 1 1)
  ∧ training (model (@evaluate toy_idle [toy_batch 1 F64.zero] toy_world).2) = false
  ∧ (@evaluate toy_idle [interrupted_batch] toy_world).1 = Raise KeyboardInterrupt
  ∧ training (model (@evaluate toy_idle [interrupted_batch] toy_world).2) = false
  ∧ criterion_nce (model (@evaluate toy_idle [interrupted_batch] toy_world).2) = false.
Proof. vm_compute. repeat split. Qed.

(* ================================================================== *)
(** ** Checkpoints and the choice after an epoch *)

Lemma range_cons (lo hi : Z) : (lo < hi)%Z → range lo hi = lo :: range (lo + 1) hi.
Proof.
  intros Hlt. unfold range.
  replace (Z.to_nat (hi - lo)) with (S (Z.to_nat (hi - (lo + 1)))) by lia.
  simpl. f_equal; [lia|].
  rewrite <-fmap_S_seq, <-list_fmap_compose. apply list_fmap_ext.
  intros _ k _. simpl. lia.
Qed.

Lemma string_app_nil_r (s : string) : s +:+ "" = s.
Proof. induction s as [|c s IH]; [done|]. unfold String.app in *. simpl. by rewrite IH. Qed.

Section Select.
Variable a : args.t.

(** The path of an epoch's checkpoint is never the path of the best
    checkpoint. *)
Lemma epoch_path_ne_save epoch : epoch_path a epoch ≠ args.save a.
Proof.
  unfold epoch_path. intros Heq.
  rewrite <-(string_app_nil_r (args.save a)) in Heq at 2.
  apply String.app_inj in Heq. discriminate Heq.
Qed.

(** Different epochs have different paths. *)
Lemma epoch_path_inj n m : epoch_path a n = epoch_path a m → n = m.
Proof.
  unfold epoch_path. intros Heq.
  apply String.app_inj, String.app_inj in Heq. by apply pretty_Z_inj.
Qed.

Lemma select_checkpoint_improves epoch lr best_val_ppl val_ppl w :
  improves best_val_ppl val_ppl = true →
  select_checkpoint a epoch lr best_val_ppl val_ppl w
  = (Ret (lr, Some val_ppl), saved (args.save a) (saved (epoch_path a epoch) w)).
Proof. intros Hi. unfold select_checkpoint. rewrite Hi. reflexivity. Qed.

Lemma select_checkpoint_anneals epoch lr best_val_ppl val_ppl w :
  improves best_val_ppl val_ppl = false →
  select_checkpoint a epoch lr best_val_ppl val_ppl w
  = (lr' ← F64.div lr (args.lr_decay a); Ret (lr', best_val_ppl),
     saved (epoch_path a epoch) w).
Proof.
  intros Hi. unfold select_checkpoint. rewrite Hi. run_stmt.
  destruct (F64.div _ _); reflexivity.
Qed.
End Select.

Section RunEpoch.
Context `{Collaborators}.
Variable a : args.t.

(** Training writes no file. *)
Lemma train_batch_files epoch lr weight_decay num_batch data_batch s w :
  files (train_batch a epoch lr weight_decay num_batch data_batch s w).2 = files w.
Proof.
  unfold train_batch. destruct s as [optimizer total_loss]. run_stmt.
  destruct (forward _ _ _) as [loss|e]; simpl; [|done].
  destruct (backward _ _) as [[emb_grad dense_grad]|e]; simpl; [|done].
  destruct (optimizer_step _ _ _) as [optimizer' dense]; simpl.
  destruct (sparse_update _ _ _ _) as [W'|e]; simpl; [|done].
  destruct (args.prof a); simpl; [done|].
  destruct (py_mod _ _) as [r|e]; simpl; [|done].
  destruct ((r =? 0)%Z && (0 <? num_batch)%Z); simpl; [|done].
  destruct (math_exp _) as [ppl|e]; simpl; done.
Qed.

Lemma for_enumerate_train_batch_files epoch lr weight_decay n data_source s w :
  files (for_enumerate (train_batch a epoch lr weight_decay) n data_source s w).2
  = files w.
Proof.
  revert n s w; induction data_source as [|b data_source IH]; intros n s w;
    simpl; [done|].
  pose proof (train_batch_files epoch lr weight_decay n b s w) as Hb.
  unfold mbind, M_bind, bind.
  destruct (train_batch _ _ _ _ _ _ _ _) as [[[s'|s']|e] w1]; simpl in *;
    try done.
  by rewrite IH.
Qed.

Lemma train_files data_source epoch lr weight_decay momentum w :
  files (train a data_source epoch lr weight_decay momentum w).2 = files w.
Proof.
  unfold train. run_stmt.
  match goal with
  | |- context [for_enumerate ?f ?n ?ds ?s ?w0] =>
      pose proof (for_enumerate_train_batch_files epoch lr weight_decay n ds s w0) as Hf;
      destruct (for_enumerate f n ds s w0) as [[s'|e] w1]
  end; simpl in *; done.
Qed.

Lemma evaluate_files data_source w :
  files (evaluate data_source w).2 = files w.
Proof. by rewrite evaluate_world. Qed.

(** An epoch that returns its result has trained, evaluated on the
    validation stream, logged, and chosen. *)
Lemma run_epoch_Some epoch lr best_val_ppl w r w' :
  run_epoch a epoch lr best_val_ppl w = (Ret (Some r), w') →
  ∃ w1 w2 val_ppl,
    args.prof a = false
    ∧ train a (corpus_train epoch) epoch lr (args.weight_decay a) (F64.lit 9 10) w
      = (Ret tt, w1)
    ∧ evaluate corpus_valid w1 = (Ret val_ppl, w2)
    ∧ select_checkpoint a epoch lr best_val_ppl val_ppl
        (logged WARNING (end_of_epoch epoch val_ppl) w2) = (Ret r, w').
Proof.
  unfold run_epoch. unfold mbind at 1, M_bind at 1, bind at 1.
  destruct (train _ _ _ _ _ _ _) as [[[]|e] w1] eqn:Htrain; [|done].
  destruct (args.prof a); [done|].
  unfold mbind at 1, M_bind at 1, bind at 1.
  destruct (evaluate _ _) as [[val_ppl|e] w2] eqn:Heval; [|done].
  unfold mbind at 1, M_bind at 1, bind at 1. unfold logger at 1.
  unfold mbind at 1, M_bind at 1, bind at 1.
  fold (logged WARNING (end_of_epoch epoch val_ppl) w2).
  destruct (select_checkpoint _ _ _ _ _ _) as [[r'|e] w3] eqn:Hsel;
    [|intros [=]].
  unfold ret. intros [= -> ->]. by exists w1, w2, val_ppl.
Qed.
End RunEpoch.

(** C7.  An epoch that completes (that returns its result) has written
    its model to [<save>.epoch_<n>], whether or not it improved on the
    best validation perplexity; that path is not [<save>], and differs
    from the path of every other epoch; and [<save>] holds the epoch's
    model when the improvement branch was taken and what it held before
    the epoch otherwise. *)
Theorem run_epoch_checkpoints :
  (∀ (C : Collaborators) (a : args.t) (epoch : Z) (lr : F64.t)
     (best_val_ppl : option F64.t) (w w' : World) (r : F64.t * option F64.t),
     run_epoch a epoch lr best_val_ppl w = (Ret (Some r), w') →
     ∃ w1 w2 val_ppl,
       train a (corpus_train epoch) epoch lr (args.weight_decay a) (F64.lit 9 10) w
       = (Ret tt, w1)
       ∧ evaluate corpus_valid w1 = (Ret val_ppl, w2)
       ∧ model w' = model w2
       ∧ files w' !! epoch_path a epoch = Some (model w2)
       ∧ files w' !! args.save a
         = if improves best_val_ppl val_ppl then Some (model w2)
           else files w !! args.save a)
  ∧ (∀ (a : args.t) (n : Z), epoch_path a n ≠ args.save a)
  ∧ (∀ (a : args.t) (n m : Z), n ≠ m → epoch_path a n ≠ epoch_path a m).
Proof.
  split; [|split].
  - intros C a epoch lr best_val_ppl w w' r Hrun.
    destruct (run_epoch_Some a _ _ _ _ _ _ Hrun)
      as (w1 & w2 & val_ppl & Hprof & Htrain & Heval & Hsel).
    exists w1, w2, val_ppl. split; [done|]. split; [done|].
    assert (files w2 = files w) as Hfiles.
    { pose proof (evaluate_files corpus_valid w1) as He.
      pose proof (train_files a (corpus_train epoch) epoch lr
                    (args.weight_decay a) (F64.lit 9 10) w) as Ht.
      rewrite Heval in He. rewrite Htrain in Ht. simpl in *. congruence. }
    destruct (improves best_val_ppl val_ppl) eqn:Himp.
    + rewrite select_checkpoint_improves in Hsel by done.
      injection Hsel as <- <-. simpl. split; [done|]. split.
      * rewrite lookup_insert_ne by (apply not_eq_sym, epoch_path_ne_save).
        apply lookup_insert_eq.
      * apply lookup_insert_eq.
    + rewrite select_checkpoint_anneals in Hsel by done.
      injection Hsel as _ <-. simpl. split; [done|]. split.
      * apply lookup_insert_eq.
      * rewrite lookup_insert_ne by apply epoch_path_ne_save.
        by rewrite Hfiles.
  - intros a n. apply epoch_path_ne_save.
  - intros a n m Hnm Heq. by apply Hnm, (epoch_path_inj a).
Qed.


Lemma run_epoch_checkpoints_witness :
  ∃ w1 w2 val_ppl,
    @train toy_epoch toy_args (@corpus_train toy_epoch 1%Z) 1 (F64.lit 1 2)
      (args.weight_decay toy_args) (F64.lit 9 10) toy_world = (Ret tt, w1)
    ∧ @evaluate toy_epoch (@corpus_valid toy_epoch) w1 = (Ret val_ppl, w2)
    ∧ model (@run_epoch toy_epoch toy_args 1 (F64.lit 1 2) None toy_world).2
      = model w2
    ∧ files (@run_epoch toy_epoch toy_args 1 (F64.lit 1 2) None toy_world).2
        !! epoch_path toy_args 1 = Some (model w2)
    ∧ files (@run_epoch toy_epoch toy_args 1 (F64.lit 1 2) None toy_world).2
        !! args.save toy_args
      = if improves None val_ppl then Some (model w2)
        else files toy_world !! args.save toy_args.
Proof.
  apply (proj1 run_epoch_checkpoints toy_epoch toy_args 1%Z (F64.lit 1 2) None
           toy_world _ (F64.lit 1 2, Some (F64.lit 1 1))).
  apply injective_projections; [vm_compute; reflexivity | reflexivity].
Defined.

(** The choice after an epoch when the recorded best is not zero: the
    best checkpoint is written, the best updated and the learning rate
    kept exactly when there is no best yet or the new perplexity is
    strictly smaller; otherwise the learning rate is divided by
    [lr_decay] and the best checkpoint and the best stay. *)
Lemma select_checkpoint_truthy_best (a : args.t) (epoch : Z) (lr : F64.t)
    (best_val_ppl : option F64.t) (val_ppl : F64.t) (w : World) :
  (∀ best, best_val_ppl = Some best → F64.truthy best = true) →
  select_checkpoint a epoch lr best_val_ppl val_ppl w
  = match best_val_ppl with
    | Some best =>
        if F64.ltb val_ppl best
        then (Ret (lr, Some val_ppl),
              saved (args.save a) (saved (epoch_path a epoch) w))
        else (lr' ← F64.div lr (args.lr_decay a); Ret (lr', best_val_ppl),
              saved (epoch_path a epoch) w)
    | None => (Ret (lr, Some val_ppl),
               saved (args.save a) (saved (epoch_path a epoch) w))
    end.
Proof.
  intros Htruthy. destruct best_val_ppl as [best|].
  - destruct (F64.ltb val_ppl best) eqn:Hlt.
    + apply select_checkpoint_improves. simpl. rewrite Hlt. apply orb_true_r.
    + apply select_checkpoint_anneals. simpl.
      by rewrite Hlt, (Htruthy best eq_refl).
  - by apply select_checkpoint_improves.
Qed.

Section Epochs.
Context `{Collaborators}.
Variable a : args.t.



End Epochs.



(** C10.  A recorded best of exactly 0.0 is falsy, and the program
    treats it as no recorded best: an epoch run with it is the epoch run
    with [None], and whatever the new validation perplexity, the best
    checkpoint is overwritten, the new perplexity becomes the best and
    the learning rate is kept. *)
Theorem zero_best_is_no_best :
  (∀ (C : Collaborators) (a : args.t) (epoch : Z) (lr : F64.t) (w : World),
     run_epoch a epoch lr (Some F64.zero) w = run_epoch a epoch lr None w)
  ∧ (∀ (a : args.t) (epoch : Z) (lr val_ppl : F64.t) (w : World),
       select_checkpoint a epoch lr (Some F64.zero) val_ppl w
       = (Ret (lr, Some val_ppl),
          saved (args.save a) (saved (epoch_path a epoch) w)))
  ∧ F64.ltb (F64.lit 5 1) F64.zero = false.
Proof.
  split; [|split].
  - intros C a epoch lr w. reflexivity.
  - intros a epoch lr val_ppl w. by apply select_checkpoint_improves.
  - vm_compute. reflexivity.
Qed.

(** C9, where the program departs from it.  With [log_interval] 2 and
    five batches of loss 1.0 the first report, at batch 2, gives the
    loss 1.5 (the three losses of batches 0, 1 and 2 over 2) and its
    exponential, whereas the mean loss of those batches is 1.0; the
    second report, at batch 4, starts from the reset accumulator and
    gives the mean 1.0 of batches 3 and 4. *)
Theorem train_first_report (exp : F64.t → F64.t) :
  log (@train (toy_with_exp exp) toy_args
         (replicate 5 (toy_batch 1 (F64.lit 1 1)))
         1 (F64.lit 1 2) (F64.lit 1 100) (F64.lit 9 10) toy_world).2
  = [(DEBUG, train_progress 1 2 (F64.lit 1 2) (F64.lit 3 2) (exp (F64.lit 3 2)));
     (DEBUG, train_progress 1 4 (F64.lit 1 2) (F64.lit 1 1) (exp (F64.lit 1 1)))]
  ∧ mean_loss (replicate 3 (F64.lit 1 1)) = Ret (F64.lit 1 1)
  ∧ mean_loss (replicate 2 (F64.lit 1 1)) = Ret (F64.lit 1 1).
Proof. repeat split; vm_compute; reflexivity. Qed.

(* ================================================================== *)
(** ** The interrupt *)

(** C8, as the program has it.  When training is asked for and
    profiling is off, a [KeyboardInterrupt] that leaves the loop over
    the epochs does not leave [main]: a warning is logged, and [main]
    goes on with the evaluation on the test stream and, when that
    returns, the warning that reports its perplexity. *)
Theorem main_interrupt `{Collaborators} (a : args.t) (w w' : World) :
  args.train a = true → args.prof a = false →
  epochs_loop a (range 1 (args.epochs a + 1)) (args.lr a) None w
  = (Raise KeyboardInterrupt, w') →
  main a w
  = (test_ppl ← evaluate corpus_test; logger WARNING (end_of_training test_ppl))
      (logged WARNING exiting_early w').
Proof.
  intros Htrain Hprof Hloop. unfold main, final_evaluation.
  rewrite Htrain, Hprof. simpl.
  unfold mbind at 1, M_bind at 1, bind at 1, try_except_KeyboardInterrupt.
  rewrite Hloop. reflexivity.
Qed.

Lemma main_interrupt_witness :
  (@main toy_interrupted toy_args toy_world).1 = Ret tt
  ∧ log (@main toy_interrupted toy_args toy_world).2
    = [(WARNING, exiting_early); (WARNING, end_of_training (F64.lit 1 1))].
Proof.
  rewrite (@main_interrupt toy_interrupted toy_args toy_world
             (@epochs_loop toy_interrupted toy_args (range 1 2) (F64.lit 1 2)
                None toy_world).2 eq_refl eq_refl).
  - vm_compute. split; reflexivity.
  - apply injective_projections; [vm_compute; reflexivity | reflexivity].
Defined.

(** C8, as the specification has it, fails under profiling: the
    interrupt is caught and logged, and [main] returns without the
    evaluation on the test stream. *)
Lemma main_interrupt_profiling_counterexample :
  args.train prof_args = true
  ∧ (@epochs_loop toy_interrupted prof_args (range 1 (args.epochs prof_args + 1))
       (args.lr prof_args) None toy_world).1 = Raise KeyboardInterrupt
  ∧ (@main toy_interrupted prof_args toy_world).1 = Ret tt
  ∧ log (@main toy_interrupted prof_args toy_world).2 = [(WARNING, exiting_early)].
Proof. vm_compute. repeat split. Qed.

(* ================================================================== *)
(** ** Further properties of a training step *)

Section TrainStep.
Context `{Collaborators}.
Variable a : args.t.

(** A step whose forward pass, backward pass and sparse update return,
    up to the point where [total_loss] has been increased: the state,
    and what the rest of the body does with it. *)
Lemma train_batch_after_update epoch lr weight_decay num_batch data_batch
    (optimizer : Optimizer) total_loss w loss emb_grad dense_grad W' :
  forward (model w) data_batch (Some lr) = Ret loss →
  backward (model w) data_batch = Ret (emb_grad, dense_grad) →
  sparse_update (encoder_weight (model w)) emb_grad lr weight_decay = Ret W' →
  let stepped := optimizer_step optimizer (dense_params (model w))
                   (clip_grad_norm dense_grad (args.clip a)) in
  let w1 := with_params W' stepped.2 w in
  train_batch a epoch lr weight_decay num_batch data_batch (optimizer, total_loss) w
  = if args.prof a then (Ret (Break (stepped.1, F32.add total_loss loss)), w1)
    else match py_mod num_batch (args.log_interval a) with
         | Raise e => (Raise e, w1)
         | Ret r =>
             if (r =? 0)%Z && (0 <? num_batch)%Z then
               let w2 := with_params W'
                           (sync_dense (all_reduce epoch num_batch) WORLD_SIZE stepped.2) w in
               let cur_loss :=
                 F64.of_tensor (F32.div (F32.add total_loss loss)
                                  (F32.of_int (args.log_interval a))) in
               match math_exp cur_loss with
               | Raise e => (Raise e, w2)
               | Ret ppl =>
                   (Ret (Continue (stepped.1, F64.zero)),
                    logged DEBUG (train_progress epoch num_batch lr cur_loss ppl) w2)
               end
             else (Ret (Continue (stepped.1, F32.add total_loss loss)), w1)
         end.
Proof.
  intros Hf Hb Hup. unfold train_batch. run_stmt.
  rewrite Hf; simpl. rewrite Hb; simpl.
  destruct (optimizer_step _ _ _) as [optimizer' dense]; simpl.
  rewrite Hup; simpl.
  destruct (args.prof a); simpl; [done|].
  destruct (py_mod _ _) as [r|e]; simpl; [|done].
  destruct ((r =? 0)%Z && (0 <? num_batch)%Z); simpl; [|done].
  destruct (math_exp _) as [ppl|e]; simpl; done.
Qed.

(** A training step changes neither flag of the model. *)
Lemma train_batch_flags epoch lr weight_decay num_batch data_batch s w :
  training (model (train_batch a epoch lr weight_decay num_batch data_batch s w).2)
  = training (model w)
  ∧ criterion_nce (model (train_batch a epoch lr weight_decay num_batch data_batch s w).2)
    = criterion_nce (model w).
Proof.
  unfold train_batch. destruct s as [optimizer total_loss]. run_stmt.
  destruct (forward _ _ _) as [loss|e]; simpl; [|done].
  destruct (backward _ _) as [[emb_grad dense_grad]|e]; simpl; [|done].
  destruct (optimizer_step _ _ _) as [optimizer' dense]; simpl.
  destruct (sparse_update _ _ _ _) as [W'|e]; simpl; [|done].
  destruct (args.prof a); simpl; [done|].
  destruct (py_mod _ _) as [r|e]; simpl; [|done].
  destruct ((r =? 0)%Z && (0 <? num_batch)%Z); simpl; [|done].
  destruct (math_exp _) as [ppl|e]; simpl; done.
Qed.

Lemma sparse_update_length (W W' : Table) grad lr weight_decay :
  sparse_update W grad lr weight_decay = Ret W' → length W' = length W.
Proof.
  unfold sparse_update.
  destruct (index_select W _) as [rows|e]; simpl; [|done].
  destruct (values_add_ _ _) as [values|e]; simpl; [|done].
  apply index_add_length.
Qed.

(** A training step keeps the number of rows of the table. *)
Lemma train_batch_rows epoch lr weight_decay num_batch data_batch s w :
  length (encoder_weight
            (model (train_batch a epoch lr weight_decay num_batch data_batch s w).2))
  = length (encoder_weight (model w)).
Proof.
  rewrite train_batch_encoder_weight.
  destruct (forward _ _ _) as [loss|e]; [|done].
  destruct (backward _ _) as [[emb_grad dense_grad]|e]; [|done].
  destruct (sparse_update _ _ _ _) as [W'|e] eqn:Hup; [|done].
  by eapply sparse_update_length.
Qed.

(** What every step keeps, the loop keeps. *)
Lemma for_enumerate_invariant {S B} (body : Z → B → S → M (ctl S))
    (P : World → Prop) :
  (∀ n x s w, P w → P (body n x s w).2) →
  ∀ xs n s w, P w → P (for_enumerate body n xs s w).2.
Proof.
  intros Hbody. induction xs as [|x xs IH]; intros n s w Hw; simpl; [done|].
  unfold mbind, M_bind, bind.
  pose proof (Hbody n x s w Hw) as Hx.
  destruct (body n x s w) as [[[s'|s']|e] w1]; simpl in *; try done.
  by apply IH.
Qed.

Lemma train_invariant (P : World → Prop) data_source epoch lr weight_decay
    momentum w :
  (∀ n x s w, P w → P (train_batch a epoch lr weight_decay n x s w).2) →
  P (with_flags true (args.nce a) w) →
  P (train a data_source epoch lr weight_decay momentum w).2.
Proof.
  intros Hbody Hw. unfold train.
  unfold mbind, M_bind, bind, modify_model. simpl.
  pose proof (for_enumerate_invariant (train_batch a epoch lr weight_decay) P
                Hbody data_source 0%Z (SGD lr momentum weight_decay, F64.zero)
                _ Hw) as Hloop.
  unfold with_flags in Hloop.
  destruct (for_enumerate _ _ _ _ _) as [[s'|e] w1]; simpl in *; done.
Qed.
End TrainStep.

(** X1.  Off the cadence (batch 0, or a batch number that is not a
    multiple of [log_interval]) a training step whose passes and update
    return does not synchronize and does not log: the dense parameters
    are what the optimizer made of them, and the loss of the batch goes
    on top of the running loss, added in binary32. *)
Theorem train_batch_off_cadence `{Collaborators} (a : args.t) (epoch : Z)
    (lr weight_decay : F64.t) (num_batch : Z) (data_batch : Batch)
    (optimizer : Optimizer) (total_loss : F32.t) (w : World) (loss : F32.t)
    (emb_grad : SparseGrad) (dense_grad : list Tensor) (W' : Table) :
  args.prof a = false → args.log_interval a ≠ 0%Z →
  (num_batch mod args.log_interval a ≠ 0 ∨ num_batch ≤ 0)%Z →
  forward (model w) data_batch (Some lr) = Ret loss →
  backward (model w) data_batch = Ret (emb_grad, dense_grad) →
  sparse_update (encoder_weight (model w)) emb_grad lr weight_decay = Ret W' →
  train_batch a epoch lr weight_decay num_batch data_batch (optimizer, total_loss) w
  = (Ret (Continue
            ((optimizer_step optimizer (dense_params (model w))
                (clip_grad_norm dense_grad (args.clip a))).1,
             F32.add total_loss loss)),
     with_params W'
       (optimizer_step optimizer (dense_params (model w))
          (clip_grad_norm dense_grad (args.clip a))).2 w).
Proof.
  intros Hprof Hli Hoff Hf Hb Hup.
  rewrite (train_batch_after_update a _ _ _ _ _ _ _ _ _ _ _ _ Hf Hb Hup).
  rewrite Hprof. unfold py_mod.
  destruct (Z.eqb_spec (args.log_interval a) 0) as [|_]; [done|].
  destruct (Z.eqb_spec (num_batch mod args.log_interval a) 0) as [Hz|_];
    [|reflexivity].
  destruct (Z.ltb_spec 0 num_batch) as [Hpos|_]; [|reflexivity].
  destruct Hoff; [done | lia].
Qed.

Lemma train_batch_off_cadence_witness :
  @train_batch toy_idle toy_args 1 (F64.lit 1 2) (F64.lit 1 100) 1
    (toy_batch 1 (f32 2 10)) (tt, f32 1 10) toy_world
  = (Ret (Continue (tt, F32.add (f32 1 10) (f32 2 10))),
     with_params toy_updated [[F32.of_int 10]] toy_world).
Proof.
  apply (@train_batch_off_cadence toy_idle toy_args 1 (F64.lit 1 2)
           (F64.lit 1 100) 1 (toy_batch 1 (f32 2 10)) tt (f32 1 10)
           toy_world (f32 2 10) scenario_grad [[]] toy_updated).
  - reflexivity.
  - discriminate.
  - left. discriminate.
  - reflexivity.
  - reflexivity.
  - vm_compute. reflexivity.
Defined.

(** X2.  On the cadence a step whose passes and update return, and for
    which [math.exp] returns, logs the running loss with the loss of the
    batch on top, divided by [log_interval], both in binary32, and the
    exponential of that quotient; it leaves the dense parameters
    synchronized and hands a running loss of zero to the next step. *)
Theorem train_batch_report `{Collaborators} (a : args.t) (epoch : Z)
    (lr weight_decay : F64.t) (num_batch : Z) (data_batch : Batch)
    (optimizer : Optimizer) (total_loss : F32.t) (w : World) (loss : F32.t)
    (emb_grad : SparseGrad) (dense_grad : list Tensor) (W' : Table)
    (ppl : F64.t) :
  args.prof a = false → args.log_interval a ≠ 0%Z →
  (num_batch mod args.log_interval a = 0)%Z → (0 < num_batch)%Z →
  forward (model w) data_batch (Some lr) = Ret loss →
  backward (model w) data_batch = Ret (emb_grad, dense_grad) →
  sparse_update (encoder_weight (model w)) emb_grad lr weight_decay = Ret W' →
  math_exp (F64.of_tensor (F32.div (F32.add total_loss loss)
                             (F32.of_int (args.log_interval a)))) = Ret ppl →
  train_batch a epoch lr weight_decay num_batch data_batch (optimizer, total_loss) w
  = (Ret (Continue
            ((optimizer_step optimizer (dense_params (model w))
                (clip_grad_norm dense_grad (args.clip a))).1,
             F64.zero)),
     logged DEBUG
       (train_progress epoch num_batch lr
          (F64.of_tensor (F32.div (F32.add total_loss loss)
                            (F32.of_int (args.log_interval a))))
          ppl)
       (with_params W'
          (sync_dense (all_reduce epoch num_batch) WORLD_SIZE
             (optimizer_step optimizer (dense_params (model w))
                (clip_grad_norm dense_grad (args.clip a))).2) w)).
Proof.
  intros Hprof Hli Hmod Hpos Hf Hb Hup Hexp.
  rewrite (train_batch_after_update a _ _ _ _ _ _ _ _ _ _ _ _ Hf Hb Hup).
  rewrite Hprof. unfold py_mod.
  destruct (Z.eqb_spec (args.log_interval a) 0) as [|_]; [done|].
  rewrite Hmod. simpl.
  destruct (Z.ltb_spec 0 num_batch) as [_|]; [|lia].
  simpl. by rewrite Hexp.
Qed.

Lemma train_batch_report_witness :
  @train_batch toy_idle toy_args 1 (F64.lit 1 2) (F64.lit 1 100) 2
    (toy_batch 1 F64.zero) (tt, F64.zero) toy_world
  = (Ret (Continue (tt, F64.zero)),
     logged DEBUG
       (train_progress 1 2 (F64.lit 1 2)
          (F64.of_tensor (F32.div (F32.add F64.zero F64.zero) (F32.of_int 2)))
          (F64.lit 1 1))
       (with_params toy_updated
          (sync_dense (@all_reduce toy_idle 1 2) WORLD_SIZE [[F32.of_int 10]])
          toy_world)).
Proof.
  apply (@train_batch_report toy_idle toy_args 1 (F64.lit 1 2) (F64.lit 1 100)
           2 (toy_batch 1 F64.zero) tt F64.zero toy_world F64.zero
           scenario_grad [[]] toy_updated (F64.lit 1 1)).
  - reflexivity.
  - discriminate.
  - reflexivity.
  - reflexivity.
  - reflexivity.
  - reflexivity.
  - vm_compute. reflexivity.
  - vm_compute. reflexivity.
Defined.

(* ================================================================== *)
(** ** Further properties of a training pass *)

Section TrainPass.
Context `{Collaborators}.
Variable a : args.t.

(** A training step only adds to the end of the log. *)
Lemma train_batch_log epoch lr weight_decay num_batch data_batch s w :
  log w `prefix_of` log (train_batch a epoch lr weight_decay num_batch data_batch s w).2.
Proof.
  unfold train_batch. destruct s as [optimizer total_loss]. run_stmt.
  destruct (forward _ _ _) as [loss|e]; simpl; [|done].
  destruct (backward _ _) as [[emb_grad dense_grad]|e]; simpl; [|done].
  destruct (optimizer_step _ _ _) as [optimizer' dense]; simpl.
  destruct (sparse_update _ _ _ _) as [W'|e]; simpl; [|done].
  destruct (args.prof a); simpl; [done|].
  destruct (py_mod _ _) as [r|e]; simpl; [|done].
  destruct ((r =? 0)%Z && (0 <? num_batch)%Z); simpl; [|done].
  destruct (math_exp _) as [ppl|e]; simpl; [|done].
  by apply prefix_app_r.
Qed.

(** One turn of a loop. *)
Lemma for_enumerate_cons {S B} (body : Z → B → S → M (ctl S)) n x xs s w :
  for_enumerate body n (x :: xs) s w
  = match body n x s w with
    | (Ret (Continue s'), w1) => for_enumerate body (n + 1)%Z xs s' w1
    | (Ret (Break s'), w1) => (Ret s', w1)
    | (Raise e, w1) => (Raise e, w1)
    end.
Proof.
  simpl. unfold mbind, M_bind, bind.
  by destruct (body n x s w) as [[[s'|s']|e] w1].
Qed.

(** A body that does not ask for the next element ends the loop. *)
Lemma for_enumerate_break {S B} (body : Z → B → S → M (ctl S)) n x xs s w :
  (∀ s', (body n x s w).1 ≠ Ret (Continue s')) →
  for_enumerate body n (x :: xs) s w = for_enumerate body n [x] s w.
Proof.
  intros Hne. rewrite !for_enumerate_cons.
  destruct (body n x s w) as [[[s'|s']|e] w1]; simpl in *; try done.
  by destruct (Hne s').
Qed.

(** Under profiling a step never asks for the next batch. *)
Lemma train_batch_prof epoch lr weight_decay num_batch data_batch s w s' :
  args.prof a = true →
  (train_batch a epoch lr weight_decay num_batch data_batch s w).1
  ≠ Ret (Continue s').
Proof.
  intros Hprof. unfold train_batch. destruct s as [optimizer total_loss].
  run_stmt.
  destruct (forward _ _ _) as [loss|e]; simpl; [|done].
  destruct (backward _ _) as [[emb_grad dense_grad]|e]; simpl; [|done].
  destruct (optimizer_step _ _ _) as [optimizer' dense]; simpl.
  destruct (sparse_update _ _ _ _) as [W'|e]; simpl; [|done].
  by rewrite Hprof.
Qed.
End TrainPass.

(** X3.  Once its optimizer is built (lines 99-105 have returned), a
    pass of [train] leaves the model in training mode with the NCE flag
    as the command line has it, whether the loop over the batches then
    returns or a batch raises. *)
Theorem train_mode_flags `{Collaborators} (a : args.t) (data_source : list Batch)
    (epoch : Z) (lr weight_decay momentum : F64.t) (w : World) :
  training (model (train a data_source epoch lr weight_decay momentum w).2) = true
  ∧ criterion_nce (model (train a data_source epoch lr weight_decay momentum w).2)
    = args.nce a.
Proof.
  apply (train_invariant a
           (λ w, training (model w) = true ∧ criterion_nce (model w) = args.nce a)).
  - intros n x s w0 [Ht Hn].
    destruct (train_batch_flags a epoch lr weight_decay n x s w0) as [-> ->].
    done.
  - done.
Qed.

(** X4.  However a pass of [train] ends, it has written no file, the
    embedding table has as many rows as before, and the log is the log
    it found with, possibly, records added at the end. *)
Theorem train_keeps `{Collaborators} (a : args.t) (data_source : list Batch)
    (epoch : Z) (lr weight_decay momentum : F64.t) (w : World) :
  files (train a data_source epoch lr weight_decay momentum w).2 = files w
  ∧ length (encoder_weight
              (model (train a data_source epoch lr weight_decay momentum w).2))
    = length (encoder_weight (model w))
  ∧ log w `prefix_of` log (train a data_source epoch lr weight_decay momentum w).2.
Proof.
  split; [apply train_files|]. split.
  - apply (train_invariant a
             (λ w', length (encoder_weight (model w'))
                    = length (encoder_weight (model w)))); [|done].
    intros n x s w0 Hw0. by rewrite train_batch_rows.
  - apply (train_invariant a (λ w', log w `prefix_of` log w')); [|done].
    intros n x s w0 Hw0. etrans; [exact Hw0|]. apply train_batch_log.
Qed.

(** X5.  Under profiling [train] runs its first batch and no other:
    the batches after the first change nothing. *)
Theorem train_profiling_first_batch `{Collaborators} (a : args.t)
    (data_batch : Batch) (rest : list Batch) (epoch : Z)
    (lr weight_decay momentum : F64.t) (w : World) :
  args.prof a = true →
  train a (data_batch :: rest) epoch lr weight_decay momentum w
  = train a [data_batch] epoch lr weight_decay momentum w.
Proof.
  intros Hprof. unfold train, mbind, M_bind, bind, modify_model.
  cbv beta iota. rewrite for_enumerate_break; [done|].
  intros s'. by apply train_batch_prof.
Qed.

Lemma train_profiling_first_batch_witness :
  @train toy_idle prof_args [toy_batch 1 F64.zero; interrupted_batch] 1
    (F64.lit 1 2) (F64.lit 1 100) (F64.lit 9 10) toy_world
  = @train toy_idle prof_args [toy_batch 1 F64.zero] 1
      (F64.lit 1 2) (F64.lit 1 100) (F64.lit 9 10) toy_world.
Proof.
  exact (@train_profiling_first_batch toy_idle prof_args (toy_batch 1 F64.zero)
           [interrupted_batch] 1 (F64.lit 1 2) (F64.lit 1 100) (F64.lit 9 10)
           toy_world eq_refl).
Defined.

(** X6.  With [--log-interval 0] and profiling off, a pass of [train]
    over a stream that is not empty raises [ZeroDivisionError] in its
    first batch, at the test for the cadence: when the passes and the
    update of that batch return, the parameters have been updated by
    then, and nothing has been logged. *)
Theorem train_zero_log_interval `{Collaborators} (a : args.t)
    (data_batch : Batch) (rest : list Batch) (epoch : Z)
    (lr weight_decay momentum : F64.t) (w : World) (loss : F64.t)
    (emb_grad : SparseGrad) (dense_grad : list Tensor) (W' : Table) :
  args.prof a = false → args.log_interval a = 0%Z →
  forward (model (with_flags true (args.nce a) w)) data_batch (Some lr) = Ret loss →
  backward (model (with_flags true (args.nce a) w)) data_batch
  = Ret (emb_grad, dense_grad) →
  sparse_update (encoder_weight (model w)) emb_grad lr weight_decay = Ret W' →
  train a (data_batch :: rest) epoch lr weight_decay momentum w
  = (Raise ZeroDivisionError,
     with_params W'
       (optimizer_step (SGD lr momentum weight_decay) (dense_params (model w))
          (clip_grad_norm dense_grad (args.clip a))).2
       (with_flags true (args.nce a) w)).
Proof.
  intros Hprof Hli Hf Hb Hup.
  unfold train, mbind, M_bind, bind, modify_model. cbv beta iota.
  change {| model := set_criterion_nce (args.nce a) (set_training true (model w));
            files := files w; log := log w |}
    with (with_flags true (args.nce a) w).
  rewrite for_enumerate_cons.
  rewrite (train_batch_after_update a _ _ _ _ _ _ _ _ _ _ _ _ Hf Hb Hup).
  rewrite Hprof, Hli. reflexivity.
Qed.

Lemma train_zero_log_interval_witness :
  @train toy_idle zero_interval_args [toy_batch 1 F64.zero] 1
    (F64.lit 1 2) (F64.lit 1 100) (F64.lit 9 10) toy_world
  = (Raise ZeroDivisionError,
     with_params toy_updated [[F32.of_int 10]] (with_flags true true toy_world)).
Proof.
  apply (@train_zero_log_interval toy_idle zero_interval_args
           (toy_batch 1 F64.zero) [] 1 (F64.lit 1 2) (F64.lit 1 100)
           (F64.lit 9 10) toy_world F64.zero scenario_grad [[]] toy_updated).
  - reflexivity.
  - reflexivity.
  - reflexivity.
  - reflexivity.
  - vm_compute. reflexivity.
Defined.

(* ================================================================== *)
(** ** Further properties of the sparse update *)

Section SparseUpdate.
Context `{IndexSort}.
Implicit Types (W : Table) (g : SparseGrad) (i : nat).

Lemma index_select_out_of_range W (indices : list nat) :
  (∃ i, i ∈ indices ∧ length W ≤ i) → index_select W indices = Raise IndexError.
Proof.
  intros (i & Hi & Hge). induction indices as [|j indices IH]; simpl.
  - by apply elem_of_nil in Hi.
  - destruct (W !! j) as [r|] eqn:Hj; [|done].
    apply elem_of_cons in Hi as [->|Hi].
    + apply lookup_ge_None in Hge. congruence.
    + by rewrite (IH Hi).
Qed.

Lemma sparse_update_out_of_range W g lr weight_decay :
  (∃ i, i ∈ g.*1 ∧ length W ≤ i) →
  sparse_update W g lr weight_decay = Raise IndexError.
Proof.
  intros (i & Hi & Hge). unfold sparse_update.
  rewrite index_select_out_of_range; [done|].
  exists i. split; [by apply coalesce_keys | done].
Qed.
End SparseUpdate.

(** The sums that [coalesce()] forms decide the update. *)
Lemma sparse_update_ext (S S' : IndexSort) (W : Table) (g g' : SparseGrad)
    (lr weight_decay : F64.t) :
  (∀ i, merged_grad i (@sort_entries S g) = merged_grad i (@sort_entries S' g')) →
  @sparse_update S W g lr weight_decay = @sparse_update S' W g' lr weight_decay.
Proof.
  intros Hext.
  assert (∀ i, i ∈ g.*1 ↔ i ∈ g'.*1) as Hkeys.
  { intros i.
    rewrite <-(@sort_entries_keys S g i), <-(@sort_entries_keys S' g' i).
    by rewrite <-!merged_grad_is_Some, Hext. }
  assert (g = [] ↔ g' = []) as Hnil.
  { split; intros ->.
    - destruct g' as [|[i v] g']; [done|]. exfalso.
      apply (elem_of_nil i), (Hkeys i). simpl. by left.
    - destruct g as [|[i v] g]; [done|]. exfalso.
      apply (elem_of_nil i), (Hkeys i). simpl. by left. }
  destruct (decide (g = [])) as [->|Hg].
  { rewrite (proj1 Hnil eq_refl). by rewrite !sparse_update_empty. }
  assert (g' ≠ []) as Hg' by (by rewrite <-Hnil).
  destruct (decide (Forall (λ i, i < length W) g.*1)) as [Hr|Hr].
  - assert (Forall (λ i, i < length W) g'.*1) as Hr'.
    { rewrite Forall_forall in Hr. apply Forall_forall.
      intros i Hi. by apply Hr, Hkeys. }
    rewrite (@sparse_update_merge_then_decay S W g) by done.
    rewrite (@sparse_update_merge_then_decay S' W g') by done.
    f_equal. unfold merge_then_decay. apply imap_ext.
    intros i row _. by rewrite Hext.
  - apply not_Forall_Exists in Hr; [|apply _].
    apply Exists_exists in Hr as [i [Hi Hge]]. simpl in Hge.
    rewrite (@sparse_update_out_of_range S W g)
      by (exists i; split; [done|lia]).
    rewrite (@sparse_update_out_of_range S' W g')
      by (exists i; split; [by apply Hkeys|lia]).
    reflexivity.
Qed.

Lemma rows_of_notin i (g : SparseGrad) : i ∉ g.*1 → rows_of i g = [].
Proof.
  induction g as [|[j v] g IH]; [done|].
  simpl. intros Hi. apply not_elem_of_cons in Hi as [Hij Hi].
  rewrite rows_of_cons. destruct (Nat.eqb_spec j i); [congruence | by apply IH].
Qed.

(** A gradient without a repeated index has at most one row for an
    index. *)
Lemma rows_of_NoDup i (g : SparseGrad) : NoDup g.*1 → length (rows_of i g) ≤ 1.
Proof.
  induction g as [|[j v] g IH]; simpl; [lia|].
  intros Hnd. apply NoDup_cons in Hnd as [Hj Hnd].
  rewrite rows_of_cons. destruct (Nat.eqb_spec j i) as [->|_]; [|by apply IH].
  rewrite rows_of_notin by done. simpl. lia.
Qed.

Lemma Permutation_short {A} (l l' : list A) : length l ≤ 1 → l ≡ₚ l' → l = l'.
Proof.
  destruct l as [|x [|y l]]; simpl; intros Hlen Hp; [| |lia].
  - by apply Permutation_nil_l in Hp.
  - by apply Permutation_singleton_l in Hp.
Qed.

(** X8.  For a gradient in which no row index repeats, the update
    depends neither on the order in which the gradient lists its
    entries nor on the order in which [coalesce()] sorts them: two
    gradients with the same entries give the same result, table or
    exception. *)
Theorem sparse_update_order (S S' : IndexSort) (W : Table) (g g' : SparseGrad)
    (lr weight_decay : F64.t) :
  NoDup g.*1 → g ≡ₚ g' →
  @sparse_update S W g lr weight_decay = @sparse_update S' W g' lr weight_decay.
Proof.
  intros Hnd Hperm. apply sparse_update_ext. intros i.
  rewrite !merged_grad_rows. f_equal.
  apply Permutation_short.
  - rewrite (rows_of_Permutation i _ _ (@sort_entries_perm S g)).
    by apply rows_of_NoDup.
  - rewrite (rows_of_Permutation i _ _ (@sort_entries_perm S g)).
    rewrite (rows_of_Permutation i _ _ (@sort_entries_perm S' g')).
    by apply rows_of_Permutation.
Qed.

Lemma sparse_update_order_witness :
  @sparse_update toy_sort toy_updated
    [(3, replicate 4 (f32 1 10)); (7, replicate 4 (f32 2 10))]
    (F64.lit 1 2) (F64.lit 1 100)
  = @sparse_update toy_sort toy_updated
      [(7, replicate 4 (f32 2 10)); (3, replicate 4 (f32 1 10))]
      (F64.lit 1 2) (F64.lit 1 100).
Proof.
  apply (sparse_update_order toy_sort toy_sort toy_updated
           [(3, replicate 4 (f32 1 10)); (7, replicate 4 (f32 2 10))]
           [(7, replicate 4 (f32 2 10)); (3, replicate 4 (f32 1 10))]).
  - simpl. apply NoDup_cons. split; [|apply NoDup_singleton].
    intros Hin. apply list_elem_of_singleton in Hin. discriminate.
  - apply Permutation_swap.
Defined.

(* ================================================================== *)
(** ** Further properties of evaluation *)

Lemma evaluate_with_flags `{Collaborators} (data_source : list Batch)
    (t n : bool) (w : World) :
  evaluate data_source (with_flags t n w) = evaluate data_source w.
Proof. unfold evaluate. run_stmt. reflexivity. Qed.

(** X9.  However [evaluate] ends, the embedding table and the dense
    parameters are what they were, no file has been written and nothing
    has been logged. *)
Theorem evaluate_keeps `{Collaborators} (data_source : list Batch) (w : World) :
  encoder_weight (model (evaluate data_source w).2) = encoder_weight (model w)
  ∧ dense_params (model (evaluate data_source w).2) = dense_params (model w)
  ∧ files (evaluate data_source w).2 = files w
  ∧ log (evaluate data_source w).2 = log w.
Proof. by rewrite evaluate_world. Qed.

(** X10.  What [evaluate] returns or raises does not depend on the mode
    flags the model comes in with, and an evaluation that follows
    another, on whatever stream and however that one ended, does what
    it would have done without it: the perplexity of a stream is
    reproducible. *)
Theorem evaluate_repeatable `{Collaborators} (data_source earlier : list Batch)
    (t n : bool) (w : World) :
  evaluate data_source (with_flags t n w) = evaluate data_source w
  ∧ evaluate data_source (evaluate earlier w).2 = evaluate data_source w.
Proof.
  split; [apply evaluate_with_flags|].
  rewrite (evaluate_world earlier w). apply evaluate_with_flags.
Qed.

(* ================================================================== *)
(** ** Further properties of an epoch and of the run *)

Lemma elem_of_range (lo hi n : Z) : n ∈ range lo hi ↔ (lo ≤ n < hi)%Z.
Proof.
  unfold range. rewrite list_elem_of_fmap. split.
  - intros (k & -> & Hk). apply elem_of_seq in Hk. lia.
  - intros Hn. exists (Z.to_nat (n - lo)). split; [lia|].
    apply elem_of_seq. lia.
Qed.

Lemma written_within_refl paths F : written_within paths F F.
Proof. by intros p. Qed.

Lemma written_within_trans paths1 paths2 F1 F2 F3 :
  written_within paths1 F1 F2 → written_within paths2 F2 F3 →
  written_within (paths1 ++ paths2) F1 F3.
Proof.
  intros H12 H23 p. destruct (H12 p) as [Hf12 Hs12], (H23 p) as [Hf23 Hs23].
  split; [|by auto].
  intros Hp. apply not_elem_of_app in Hp as [? ?].
  by rewrite Hf23, Hf12.
Qed.

Lemma written_within_insert paths F p m :
  p ∈ paths → written_within paths F (<[p := m]> F).
Proof.
  intros Hp q. split.
  - intros Hq. apply lookup_insert_ne. by intros ->.
  - intros Hs. destruct (decide (p = q)) as [->|Hne].
    + rewrite lookup_insert_eq. by eexists.
    + by rewrite lookup_insert_ne.
Qed.

Lemma written_within_mono paths paths' F F' :
  paths ⊆ paths' → written_within paths F F' → written_within paths' F F'.
Proof.
  intros Hsub HF p. destruct (HF p) as [Hf Hs]. split; [|done].
  intros Hp. apply Hf. intros Hin. by apply Hp, Hsub.
Qed.

(** Membership in, and inclusion between, lists of paths given by
    their elements. *)
Ltac paths_solver :=
  try (intros ?); rewrite ?elem_of_app, ?elem_of_cons, ?elem_of_nil; tauto.

Section Run.
Context `{Collaborators}.
Variable a : args.t.

Lemma select_checkpoint_files epoch lr best_val_ppl val_ppl w :
  files (select_checkpoint a epoch lr best_val_ppl val_ppl w).2
  = if improves best_val_ppl val_ppl
    then <[args.save a := model w]> (<[epoch_path a epoch := model w]> (files w))
    else <[epoch_path a epoch := model w]> (files w).
Proof.
  destruct (improves best_val_ppl val_ppl) eqn:Hi.
  - by rewrite select_checkpoint_improves.
  - by rewrite select_checkpoint_anneals.
Qed.

(** An epoch writes within its own checkpoint and the best one. *)
Lemma run_epoch_written epoch lr best_val_ppl w :
  written_within [args.save a; epoch_path a epoch] (files w)
    (files (run_epoch a epoch lr best_val_ppl w).2).
Proof.
  unfold run_epoch. unfold mbind at 1, M_bind at 1, bind at 1.
  pose proof (train_files a (corpus_train epoch) epoch lr (args.weight_decay a)
                (F64.lit 9 10) w) as Ht.
  destruct (train _ _ _ _ _ _ _) as [[[]|e] w1]; simpl in Ht;
    [|simpl; rewrite Ht; apply written_within_refl].
  destruct (args.prof a); [simpl; rewrite Ht; apply written_within_refl|].
  unfold mbind at 1, M_bind at 1, bind at 1.
  pose proof (evaluate_files corpus_valid w1) as He.
  destruct (evaluate _ _) as [[val_ppl|e] w2]; simpl in He;
    [|simpl; rewrite He, Ht; apply written_within_refl].
  unfold mbind at 1, M_bind at 1, bind at 1. unfold logger at 1.
  unfold mbind at 1, M_bind at 1, bind at 1.
  fold (logged WARNING (end_of_epoch epoch val_ppl) w2).
  pose proof (select_checkpoint_files epoch lr best_val_ppl val_ppl
                (logged WARNING (end_of_epoch epoch val_ppl) w2)) as Hs.
  assert (written_within [args.save a; epoch_path a epoch] (files w)
            (files (select_checkpoint a epoch lr best_val_ppl val_ppl
                      (logged WARNING (end_of_epoch epoch val_ppl) w2)).2))
    as Hw.
  { rewrite Hs. simpl. rewrite He, Ht.
    destruct (improves best_val_ppl val_ppl).
    - apply (written_within_mono ([epoch_path a epoch] ++ [args.save a]));
        [paths_solver|].
      eapply written_within_trans; apply written_within_insert; paths_solver.
    - apply written_within_insert. paths_solver. }
  destruct (select_checkpoint _ _ _ _ _ _) as [[r|e] w3]; exact Hw.
Qed.

(** The loop over the epochs writes within the checkpoints of its
    epochs and the best one. *)
Lemma epochs_loop_written epochs lr best_val_ppl w :
  written_within (args.save a :: (epoch_path a <$> epochs)) (files w)
    (files (epochs_loop a epochs lr best_val_ppl w).2).
Proof.
  revert lr best_val_ppl w.
  induction epochs as [|epoch epochs IH]; intros lr best_val_ppl w; simpl.
  - apply written_within_refl.
  - unfold mbind, M_bind, bind.
    pose proof (run_epoch_written epoch lr best_val_ppl w) as Hr.
    assert (∀ F, written_within [args.save a; epoch_path a epoch] (files w) F →
                 written_within (args.save a :: epoch_path a epoch
                                   :: (epoch_path a <$> epochs)) (files w) F)
      as Hmono.
    { intros F. apply written_within_mono. paths_solver. }
    destruct (run_epoch _ _ _ _ _) as [[[[lr' best']|]|e] w1]; simpl in *;
      try by apply Hmono.
    destruct (args.prof a); [by apply Hmono|].
    apply (written_within_mono
             ([args.save a; epoch_path a epoch]
                ++ (args.save a :: (epoch_path a <$> epochs)))); [paths_solver|].
    eapply written_within_trans; [exact Hr | apply IH].
Qed.

(** An epoch that returns its result leaves its checkpoint behind, and
    the best checkpoint when there was no best before. *)
Lemma run_epoch_Some_files epoch lr best_val_ppl w r w' :
  run_epoch a epoch lr best_val_ppl w = (Ret (Some r), w') →
  is_Some (files w' !! epoch_path a epoch)
  ∧ (best_val_ppl = None → is_Some (files w' !! args.save a)).
Proof.
  intros Hrun.
  destruct (run_epoch_Some a _ _ _ _ _ _ Hrun)
    as (w1 & w2 & val_ppl & Hprof & Htrain & Heval & Hsel).
  pose proof (select_checkpoint_files epoch lr best_val_ppl val_ppl
                (logged WARNING (end_of_epoch epoch val_ppl) w2)) as Hs.
  rewrite Hsel in Hs. simpl in Hs. rewrite Hs. split.
  - destruct (improves best_val_ppl val_ppl).
    + rewrite lookup_insert_ne by (apply not_eq_sym, epoch_path_ne_save).
      rewrite lookup_insert_eq. by eexists.
    + rewrite lookup_insert_eq. by eexists.
  - intros ->. simpl. rewrite lookup_insert_eq. by eexists.
Qed.

(** A loop over the epochs that completes leaves the checkpoint of
    every epoch behind. *)
Lemma epochs_loop_Ret_files epochs lr best_val_ppl w w' :
  args.prof a = false →
  epochs_loop a epochs lr best_val_ppl w = (Ret tt, w') →
  (∀ n, n ∈ epochs → is_Some (files w' !! epoch_path a n))
  ∧ (best_val_ppl = None → epochs ≠ [] → is_Some (files w' !! args.save a)).
Proof.
  intros Hprof. revert lr best_val_ppl w.
  induction epochs as [|epoch epochs IH]; intros lr best_val_ppl w; simpl.
  - intros _. split; [intros n Hn; by apply elem_of_nil in Hn | done].
  - unfold mbind, M_bind, bind.
    destruct (run_epoch _ _ _ _ _) as [[[[lr' best']|]|e] w1] eqn:Hrun;
      simpl; try done.
    rewrite Hprof. intros Hloop.
    destruct (run_epoch_Some_files _ _ _ _ _ _ Hrun) as [Hep Hbest].
    pose proof (epochs_loop_written epochs lr' best' w1) as Hw.
    rewrite Hloop in Hw. simpl in Hw.
    destruct (IH _ _ _ Hloop) as [IHep _]. split.
    + intros n Hn. apply elem_of_cons in Hn as [->|Hn]; [|by apply IHep].
      by apply (Hw (epoch_path a epoch)).
    + intros Hnone _. by apply (Hw (args.save a)), Hbest.
Qed.
End Run.

(** X11.  When the recorded best is not zero, an epoch that returns its
    result has chosen as its comments say: with no best yet, or a
    validation perplexity strictly below the best, the learning rate is
    kept and the perplexity becomes the best; otherwise the best stays
    and the learning rate is the old one divided by [lr_decay]. *)
Theorem run_epoch_selects `{Collaborators} (a : args.t) (epoch : Z) (lr : F64.t)
    (best_val_ppl : option F64.t) (w w' : World) (r : F64.t * option F64.t) :
  (∀ best, best_val_ppl = Some best → F64.truthy best = true) →
  run_epoch a epoch lr best_val_ppl w = (Ret (Some r), w') →
  ∃ w1 w2 val_ppl,
    train a (corpus_train epoch) epoch lr (args.weight_decay a) (F64.lit 9 10) w
    = (Ret tt, w1)
    ∧ evaluate corpus_valid w1 = (Ret val_ppl, w2)
    ∧ match best_val_ppl with
      | Some best =>
          if F64.ltb val_ppl best then r = (lr, Some val_ppl)
          else F64.div lr (args.lr_decay a) = Ret r.1 ∧ r.2 = Some best
      | None => r = (lr, Some val_ppl)
      end.
Proof.
  intros Htruthy Hrun.
  destruct (run_epoch_Some a _ _ _ _ _ _ Hrun)
    as (w1 & w2 & val_ppl & Hprof & Htrain & Heval & Hsel).
  exists w1, w2, val_ppl. split; [done|]. split; [done|].
  rewrite select_checkpoint_truthy_best in Hsel by done.
  destruct best_val_ppl as [best|]; [|by injection Hsel as <- _].
  destruct (F64.ltb val_ppl best); [by injection Hsel as <- _|].
  destruct (F64.div lr (args.lr_decay a)) as [lr'|e]; simpl in Hsel; [|done].
  by injection Hsel as <- _.
Qed.

Lemma run_epoch_selects_witness :
  ∃ w1 w2 val_ppl,
    @train toy_epoch toy_args (@corpus_train toy_epoch 1%Z) 1 (F64.lit 1 2)
      (args.weight_decay toy_args) (F64.lit 9 10) toy_world = (Ret tt, w1)
    ∧ @evaluate toy_epoch (@corpus_valid toy_epoch) w1 = (Ret val_ppl, w2)
    ∧ (if F64.ltb val_ppl (F64.lit 1 2)
       then (F64.lit 1 4, Some (F64.lit 1 2)) = (F64.lit 1 2, Some val_ppl)
       else F64.div (F64.lit 1 2) (args.lr_decay toy_args) = Ret (F64.lit 1 4)
            ∧ Some (F64.lit 1 2) = Some (F64.lit 1 2)).
Proof.
  apply (@run_epoch_selects toy_epoch toy_args 1%Z (F64.lit 1 2)
           (Some (F64.lit 1 2)) toy_world
           (@run_epoch toy_epoch toy_args 1 (F64.lit 1 2) (Some (F64.lit 1 2))
              toy_world).2
           (F64.lit 1 4, Some (F64.lit 1 2))).
  - intros best [= <-]. vm_compute. reflexivity.
  - apply injective_projections; [vm_compute; reflexivity | reflexivity].
Defined.

(** X12.  However an epoch ends, every path other than its own
    checkpoint and the best checkpoint holds what it held, in particular
    the checkpoint of every other epoch; and no file is lost. *)
Theorem run_epoch_other_paths `{Collaborators} (a : args.t) (epoch : Z)
    (lr : F64.t) (best_val_ppl : option F64.t) (w : World) :
  (∀ p, p ≠ args.save a → p ≠ epoch_path a epoch →
        files (run_epoch a epoch lr best_val_ppl w).2 !! p = files w !! p)
  ∧ (∀ n, n ≠ epoch →
          files (run_epoch a epoch lr best_val_ppl w).2 !! epoch_path a n
          = files w !! epoch_path a n)
  ∧ (∀ p, is_Some (files w !! p) →
          is_Some (files (run_epoch a epoch lr best_val_ppl w).2 !! p)).
Proof.
  pose proof (run_epoch_written a epoch lr best_val_ppl w) as Hw.
  assert (∀ p, p ≠ args.save a → p ≠ epoch_path a epoch →
               files (run_epoch a epoch lr best_val_ppl w).2 !! p = files w !! p)
    as Hframe.
  { intros p Hs He. apply (Hw p). rewrite !elem_of_cons, elem_of_nil. tauto. }
  split; [done|]. split.
  - intros n Hn. apply Hframe; [apply epoch_path_ne_save|].
    intros Heq. by apply Hn, (epoch_path_inj a).
  - intros p. apply (Hw p).
Qed.

(** X13.  When the loop of [main] over the epochs completes with
    profiling off, the checkpoint of every epoch from 1 to [epochs] is
    there, and with at least one epoch so is the best checkpoint. *)
Theorem epochs_loop_checkpoints `{Collaborators} (a : args.t) (w w' : World) :
  args.prof a = false →
  epochs_loop a (range 1 (args.epochs a + 1)) (args.lr a) None w = (Ret tt, w') →
  (∀ n, (1 ≤ n ≤ args.epochs a)%Z → is_Some (files w' !! epoch_path a n))
  ∧ ((1 ≤ args.epochs a)%Z → is_Some (files w' !! args.save a)).
Proof.
  intros Hprof Hloop.
  destruct (epochs_loop_Ret_files a _ _ _ _ _ Hprof Hloop) as [Hep Hbest].
  split.
  - intros n Hn. apply Hep, elem_of_range. lia.
  - intros Hn. apply Hbest; [done|]. rewrite range_cons by lia. done.
Qed.

Lemma epochs_loop_checkpoints_witness :
  (∀ n, (1 ≤ n ≤ args.epochs toy_args)%Z →
        is_Some (files (@epochs_loop toy_epoch toy_args (range 1 2) (F64.lit 1 2)
                          None toy_world).2 !! epoch_path toy_args n))
  ∧ ((1 ≤ args.epochs toy_args)%Z →
     is_Some (files (@epochs_loop toy_epoch toy_args (range 1 2) (F64.lit 1 2)
                       None toy_world).2 !! args.save toy_args)).
Proof.
  apply (@epochs_loop_checkpoints toy_epoch toy_args toy_world).
  - reflexivity.
  - apply injective_projections; [vm_compute; reflexivity | reflexivity].
Defined.

Section MainRun.
Context `{Collaborators}.
Variable a : args.t.

(** The loop of [main] when there is at least one epoch: its first
    turn. *)
Lemma epochs_loop_first lr best_val_ppl w :
  (1 ≤ args.epochs a)%Z →
  epochs_loop a (range 1 (args.epochs a + 1)) lr best_val_ppl w
  = match run_epoch a 1 lr best_val_ppl w with
    | (Ret (Some (lr', best')), w1) =>
        if args.prof a then (Ret tt, w1)
        else epochs_loop a (range 2 (args.epochs a + 1)) lr' best' w1
    | (Ret None, w1) => (Raise TypeError, w1)
    | (Raise e, w1) => (Raise e, w1)
    end.
Proof.
  intros Hn. rewrite range_cons by lia. change (1 + 1)%Z with 2%Z.
  cbn [epochs_loop]. unfold mbind, M_bind, bind.
  destruct (run_epoch _ _ _ _ _) as [[[[lr' best']|]|e] w1]; try done.
  by destruct (args.prof a).
Qed.

(** An exception of the loop that is not [KeyboardInterrupt] leaves
    [main] as it is. *)
Lemma main_Raise w w' e :
  args.train a = true → e ≠ KeyboardInterrupt →
  epochs_loop a (range 1 (args.epochs a + 1)) (args.lr a) None w = (Raise e, w') →
  main a w = (Raise e, w').
Proof.
  intros Htrain He Hloop. unfold main. rewrite Htrain.
  unfold mbind, M_bind, bind, try_except_KeyboardInterrupt.
  rewrite Hloop. by destruct e.
Qed.

Lemma run_epoch_prof epoch lr best_val_ppl w w1 :
  args.prof a = true →
  train a (corpus_train epoch) epoch lr (args.weight_decay a) (F64.lit 9 10) w
  = (Ret tt, w1) →
  run_epoch a epoch lr best_val_ppl w = (Ret None, w1).
Proof.
  intros Hprof Htrain. unfold run_epoch.
  unfold mbind at 1, M_bind at 1, bind at 1. by rewrite Htrain, Hprof.
Qed.

Lemma run_epoch_evaluate_Raise epoch lr best_val_ppl w w1 e w2 :
  args.prof a = false →
  train a (corpus_train epoch) epoch lr (args.weight_decay a) (F64.lit 9 10) w
  = (Ret tt, w1) →
  evaluate corpus_valid w1 = (Raise e, w2) →
  run_epoch a epoch lr best_val_ppl w = (Raise e, w2).
Proof.
  intros Hprof Htrain Heval. unfold run_epoch.
  unfold mbind at 1, M_bind at 1, bind at 1. rewrite Htrain, Hprof.
  unfold mbind at 1, M_bind at 1, bind at 1. by rewrite Heval.
Qed.
End MainRun.

(** X15.  With [--train] and profiling on and at least one epoch, a
    run whose first pass of [train] returns ends in [TypeError]: the
    epoch returns [None], which [main] cannot unpack.  Nothing is
    evaluated, saved or logged after the pass. *)
Theorem main_profiling_TypeError `{Collaborators} (a : args.t) (w w1 : World) :
  args.train a = true → args.prof a = true → (1 ≤ args.epochs a)%Z →
  train a (corpus_train 1%Z) 1 (args.lr a) (args.weight_decay a) (F64.lit 9 10) w
  = (Ret tt, w1) →
  main a w = (Raise TypeError, w1).
Proof.
  intros Htrain Hprof Hn Hpass. apply main_Raise; [done..|].
  rewrite epochs_loop_first by done.
  by rewrite (run_epoch_prof a _ _ _ _ _ Hprof Hpass).
Qed.

Lemma main_profiling_TypeError_witness :
  @main toy_epoch prof_args toy_world
  = (Raise TypeError,
     (@train toy_epoch prof_args (@corpus_train toy_epoch 1%Z) 1
        (args.lr prof_args) (args.weight_decay prof_args) (F64.lit 9 10)
        toy_world).2).
Proof.
  apply (@main_profiling_TypeError toy_epoch prof_args toy_world).
  - reflexivity.
  - reflexivity.
  - vm_compute. discriminate.
  - apply injective_projections; [vm_compute; reflexivity | reflexivity].
Defined.

(** X16.  Only [KeyboardInterrupt] is caught: any other exception that
    leaves the loop over the epochs leaves [main] too, in the state the
    loop left, without the final evaluation. *)
Theorem main_propagates `{Collaborators} (a : args.t) (w w' : World) (e : exn) :
  args.train a = true → e ≠ KeyboardInterrupt →
  epochs_loop a (range 1 (args.epochs a + 1)) (args.lr a) None w = (Raise e, w') →
  main a w = (Raise e, w').
Proof.
  intros Htrain He Hloop. unfold main. rewrite Htrain.
  unfold mbind, M_bind, bind, try_except_KeyboardInterrupt.
  rewrite Hloop. by destruct e.
Qed.

Lemma main_propagates_witness :
  @main toy_epoch zero_interval_args toy_world
  = (Raise ZeroDivisionError,
     (@epochs_loop toy_epoch zero_interval_args (range 1 2) (F64.lit 1 2) None
        toy_world).2).
Proof.
  apply (@main_propagates toy_epoch zero_interval_args toy_world).
  - reflexivity.
  - discriminate.
  - apply injective_projections; [vm_compute; reflexivity | reflexivity].
Defined.

(** X17.  With an empty validation stream, a training run whose first
    pass of [train] returns ends in [ZeroDivisionError] at the end of
    the first epoch: no checkpoint has been written and nothing has been
    logged after the pass, and the test stream is not evaluated. *)
Theorem main_empty_validation `{Collaborators} (a : args.t) (w w1 : World) :
  args.train a = true → args.prof a = false → (1 ≤ args.epochs a)%Z →
  corpus_valid = [] →
  train a (corpus_train 1%Z) 1 (args.lr a) (args.weight_decay a) (F64.lit 9 10) w
  = (Ret tt, w1) →
  main a w = (Raise ZeroDivisionError, with_flags false true w1)
  ∧ files w1 = files w.
Proof.
  intros Htrain Hprof Hn Hvalid Hpass. split.
  - apply main_Raise; [done..|].
    rewrite epochs_loop_first by done.
    rewrite (run_epoch_evaluate_Raise a _ _ _ _ w1 ZeroDivisionError
               (with_flags false true w1) Hprof Hpass); [done|].
    rewrite Hvalid. unfold evaluate. run_stmt. reflexivity.
  - pose proof (train_files a (corpus_train 1%Z) 1 (args.lr a)
                  (args.weight_decay a) (F64.lit 9 10) w) as Hf.
    by rewrite Hpass in Hf.
Qed.

Lemma main_empty_validation_witness :
  @main toy_no_validation toy_args toy_world
  = (Raise ZeroDivisionError,
     with_flags false true
       (@train toy_no_validation toy_args (@corpus_train toy_no_validation 1%Z) 1
          (args.lr toy_args) (args.weight_decay toy_args) (F64.lit 9 10)
          toy_world).2)
  ∧ files (@train toy_no_validation toy_args (@corpus_train toy_no_validation 1%Z) 1
             (args.lr toy_args) (args.weight_decay toy_args) (F64.lit 9 10)
             toy_world).2
    = files toy_world.
Proof.
  apply (@main_empty_validation toy_no_validation toy_args toy_world).
  - reflexivity.
  - reflexivity.
  - vm_compute. discriminate.
  - reflexivity.
  - apply injective_projections; [vm_compute; reflexivity | reflexivity].
Defined.

(* ================================================================== *)
(** ** Shapes *)

Section Shape.
Variable d : nat.

Lemma tensor_add_length (x y : Tensor) :
  length x = d → length y = d → length (tensor_add x y) = d.
Proof. intros Hx Hy. unfold tensor_add. rewrite length_zip_with. lia. Qed.

Lemma tensor_sub_length (x y : Tensor) :
  length x = d → length y = d → length (tensor_sub x y) = d.
Proof. intros Hx Hy. unfold tensor_sub. rewrite length_zip_with. lia. Qed.

Lemma tensor_scale_length c (x : Tensor) :
  length x = d → length (tensor_scale c x) = d.
Proof. intros Hx. unfold tensor_scale. by rewrite length_fmap. Qed.

Lemma merged_from_length acc i (g : SparseGrad) :
  length acc = d → Forall (λ e, length e.2 = d) g →
  length (merged_from acc i g) = d.
Proof.
  intros Hacc Hg. revert acc Hacc.
  induction Hg as [|[j v] g Hv _ IH]; intros acc Hacc; simpl; [done|].
  apply IH. destruct (j =? i); [|done]. by apply tensor_add_length.
Qed.

Lemma merged_grad_length i (g : SparseGrad) raw :
  Forall (λ e, length e.2 = d) g → merged_grad i g = Some raw → length raw = d.
Proof.
  induction 1 as [|[j v] g Hv Hg IH]; simpl; [done|].
  destruct (j =? i); [|done]. intros [= <-]. by apply merged_from_length.
Qed.
End Shape.

(** X19.  The update keeps the shape of the table: when the rows of
    the table and the rows of the gradient all have [d] elements and the
    update returns, the table it returns has as many rows, all of [d]
    elements. *)
Theorem sparse_update_shape `{IndexSort} (d : nat) (W W' : Table)
    (grad : SparseGrad) (lr weight_decay : F64.t) :
  Forall (λ row, length row = d) W →
  Forall (λ e, length e.2 = d) grad →
  sparse_update W grad lr weight_decay = Ret W' →
  length W' = length W ∧ Forall (λ row, length row = d) W'.
Proof.
  intros HW Hg Hup.
  assert (Forall (λ i, i < length W) grad.*1) as Hrange.
  { destruct (decide (Forall (λ i, i < length W) grad.*1)) as [Hr|Hr]; [done|].
    apply not_Forall_Exists in Hr; [|apply _].
    apply Exists_exists in Hr as [i [Hi Hge]]. simpl in Hge.
    rewrite sparse_update_out_of_range in Hup; [done|].
    exists i. split; [done|lia]. }
  assert (grad ≠ []) as Hentries.
  { intros ->. by rewrite sparse_update_empty in Hup. }
  rewrite sparse_update_merge_then_decay in Hup by done.
  injection Hup as <-. unfold merge_then_decay. split; [apply length_imap|].
  apply Forall_lookup. intros i row'. rewrite list_lookup_imap.
  destruct (W !! i) as [row|] eqn:Hrow; simpl; [|done].
  assert (length row = d) as Hd by apply (Forall_lookup_1 _ _ _ _ HW Hrow).
  intros [= <-].
  destruct (merged_grad i (sort_entries grad)) as [raw|] eqn:Hraw; [|done].
  assert (Forall (λ e, length e.2 = d) (sort_entries grad)) as Hg'.
  { by rewrite (sort_entries_perm grad). }
  apply tensor_sub_length; [done|]. apply tensor_scale_length.
  apply tensor_add_length; [by eapply merged_grad_length|].
  by apply tensor_scale_length.
Qed.

Lemma sparse_update_shape_witness :
  length toy_updated = length (encoder_weight toy_model)
  ∧ Forall (λ row, length row = 4) toy_updated.
Proof.
  apply (@sparse_update_shape toy_sort 4 (encoder_weight toy_model) toy_updated
           scenario_grad (F64.lit 1 2) (F64.lit 1 100)).
  - repeat constructor.
  - repeat constructor.
  - vm_compute. reflexivity.
Defined.
